(** * Smartphone PIV: the two correlation servers, embedded and verified

    The repository ships two Node servers that turn a pair of grayscale
    frames into a displacement field:

    - the "advanced" server ([extractWindow], [normalizedCrossCorrelation],
      [computePIVField], [removeOutliers], [calculateStatistics]);
    - the first server ([phaseCorrelate] and the filtering and statistics
      stages of [processImagePair]).

    JavaScript numbers are IEEE-754 binary64 values, so they are embedded as
    Rocq's primitive floats: every arithmetic operation below is the very
    operation the interpreter performs, including NaN, signed zeros and
    infinities.  Quantities that the code only ever uses as integers (pixel
    coordinates, offsets, window sizes, array indices) are kept in [Z] or
    [nat] and converted with [Z2F] where the code does arithmetic on them. *)

From Stdlib Require Import ZArith List Lia Bool Floats Sorted String.
From Stdlib Require Uint63.
From Stdlib.Strings Require Byte.
From stdpp Require Import base list sorting.
Import ListNotations.

Local Open Scope Z_scope.

(** ** JavaScript numbers *)

Module JS.

(** An integer-valued number as a binary64 value (exact below 2^53). *)
Definition Z2F (z : Z) : float :=
  match z with
  | Z0 => 0%float
  | Zpos _ => of_uint63 (Uint63.of_Z z)
  | Zneg p => (- of_uint63 (Uint63.of_Z (Zpos p)))%float
  end.

Definition N2F (n : nat) : float := Z2F (Z.of_nat n).

(** [Math.fround]: what a store into a [Float32Array] keeps of a number. *)
Definition fround (f : float) : float :=
  match Prim2SF f with
  | S754_finite s m e =>
      SF2Prim (binary_normalize 24 128 (cond_Zopp s (Zpos m)) e s)
  | _ => f
  end.

(** [Math.floor] of a finite number, as an integer.  [Math.floor] hands NaN
    and the infinities back as they are; they have no integer, and the 0
    given here stands for none of them.  The only caller applies it to
    [windowSize * (1 - overlap)]: what is proved from a step of zero or less
    assumes that this product is finite. *)
Definition floor (f : float) : Z :=
  match Prim2SF f with
  | S754_finite s m e => Z.shiftl (cond_Zopp s (Zpos m)) e
  | _ => 0
  end.

Definition isNaN (f : float) : bool := PrimFloat.is_nan f.

(** Reading index [i] of a numeric array; a read past the end yields
    [undefined], which every arithmetic use turns into NaN. *)
Definition get (a : list float) (i : nat) : float := default nan (a !! i).

(** [a.reduce((s, v) => s + v, 0)] *)
Definition sum (a : list float) : float :=
  fold_left (fun s v => (s + v)%float) a 0%float.

(** [Math.max] of two numbers: NaN is contagious and +0 beats -0. *)
Definition max2 (a b : float) : float :=
  if isNaN a then a
  else if isNaN b then b
  else if (a <? b)%float then b
  else if (b <? a)%float then a
  else if ((a =? 0) && (b =? 0))%float then (a + b)%float
  else a.

(** [Math.max(...a)]; the empty call returns -Infinity. *)
Definition max (a : list float) : float := fold_left max2 a neg_infinity.

(** [[...a].sort((p, q) => p - q)]: a stable sort by the sign of the
    comparator.  On NaN-free input every conforming engine returns this
    list. *)
Fixpoint insertSorted (x : float) (l : list float) : list float :=
  match l with
  | [] => [x]
  | y :: l' =>
      if (x - y <=? 0)%float then x :: y :: l' else y :: insertSorted x l'
  end.

Definition sort (a : list float) : list float :=
  fold_right insertSorted [] a.

(** The integers [lo, lo+1, ..., lo+n-1]: the values a counting [for]
    loop visits. *)
Definition range (lo : Z) (n : nat) : list Z :=
  map (fun k => lo + Z.of_nat k) (seq 0 n).

(** [for (d = -r; d <= r; d++)] *)
Definition symRange (r : Z) : list Z := range (- r) (Z.to_nat (2 * r + 1)).

End JS.

(** ** The advanced server *)

Module Advanced.
Import JS.

Record Config := mkConfig {
  interrogationWindow : Z;
  overlap : float;
  searchRange : Z;
  subPixelAccuracy : bool;
  outlierThreshold : float;
  minimumCorrelation : float
}.

(** [PIV_CONFIG]; 0.1 is written as the binary64 value it denotes. *)
Definition PIV_CONFIG : Config :=
  {| interrogationWindow := 64;
     overlap := 0.5%float;
     searchRange := 32;
     subPixelAccuracy := true;
     outlierThreshold := 3%float;
     minimumCorrelation := 0x1.999999999999ap-4%float |}.

(** A decoded frame: [pixels] is the row-major [Uint8Array]. *)
Record Image := mkImage {
  pixels : list Byte.byte;
  width : Z;
  height : Z
}.

Definition pixelAt (px : list Byte.byte) (i : Z) : float :=
  match px !! Z.to_nat i with
  | Some b => Z2F (Z.of_N (Strings.Byte.to_N b))
  | None => nan
  end.

(** [extractWindow]: a zero-initialised [Float32Array] of
    [windowSize * windowSize] samples; samples outside the frame stay 0. *)
Definition extractWindow (px : list Byte.byte) (width height x y windowSize : Z)
  : list float :=
  flat_map (fun j =>
    map (fun i =>
      let px' := x + i in
      let py := y + j in
      if (0 <=? px') && (px' <? width) && (0 <=? py) && (py <? height)
      then fround (pixelAt px (py * width + px'))
      else 0%float)
      (range 0 (Z.to_nat windowSize)))
    (range 0 (Z.to_nat windowSize)).

Definition templateMean (template : list float) : float :=
  (sum template / N2F (length template))%float.

(** [template.map(v => v - templateMean)] on a [Float32Array] is again a
    [Float32Array]. *)
Definition templateNorm (template : list float) : list float :=
  map (fun v => fround (v - templateMean template)) template.

Definition templateStd (template : list float) : float :=
  PrimFloat.sqrt
    (fold_left (fun s v => (s + v * v)%float) (templateNorm template) 0%float
     / N2F (length template)).

(** The two innermost loops of [normalizedCrossCorrelation] at one offset:
    the accumulated [correlation] and [count]. *)
Definition accumulate (tnorm : list float) (mean : float) (search : list float)
    (windowSize dx dy : Z) : float * float :=
  fold_left (fun acc j =>
    fold_left (fun (acc : float * float) i =>
      let searchIdx := (j + dy) * windowSize + (i + dx) in
      if (0 <=? searchIdx) && (searchIdx <? Z.of_nat (length search))
      then
        let templateIdx := j * windowSize + i in
        ((fst acc + get tnorm (Z.to_nat templateIdx)
                    * (get search (Z.to_nat searchIdx) - mean))%float,
         (snd acc + 1)%float)
      else acc)
      (range 0 (Z.to_nat windowSize)) acc)
    (range 0 (Z.to_nat windowSize)) (0%float, 0%float).

(** The score the search loop compares at an offset, when it has one
    ([count > 0]). *)
Definition scoreAt (template search : list float) (windowSize dx dy : Z)
  : option float :=
  let '(correlation, count) :=
    accumulate (templateNorm template) (templateMean template) search
               windowSize dx dy in
  if (0 <? count)%float
  then Some (correlation / (count * templateStd template))%float
  else None.

Record Match := mkMatch { dx : Z; dy : Z; correlation : float }.

(** The running best of the search loop. *)
Definition improve (score : Z -> Z -> option float) (dy' dx' : Z) (best : Match)
  : Match :=
  match score dx' dy' with
  | Some c => if (correlation best <? c)%float then mkMatch dx' dy' c else best
  | None => best
  end.

Definition normalizedCrossCorrelation (template search : list float)
    (windowSize searchRange : Z) : Match :=
  if (templateStd template =? 0)%float then mkMatch 0 0 0%float
  else
    fold_left (fun best dy' =>
      fold_left (fun best dx' =>
        improve (scoreAt template search windowSize) dy' dx' best)
        (symRange searchRange) best)
      (symRange searchRange) (mkMatch 0 0 neg_infinity).

(** One sample of the vector field as [computePIVField] pushes it. *)
Record Vector := mkVector {
  x : float;
  y : float;
  u : float;
  v : float;
  vcorrelation : float   (* the field [correlation] *)
}.

(** [for (let k = start; k < bound; k += step) body]: the loop variable is
    threaded explicitly; [None] means the fuel ran out before the loop (or
    a loop nested in its body) finished. *)
Fixpoint forLoop {S : Type} (fuel : nat) (bound step : Z)
    (body : Z -> S -> option S) (k : Z) (st : S) : option S :=
  match fuel with
  | O => None
  | Datatypes.S fuel' =>
      if k <? bound then
        match body k st with
        | Some st' => forLoop fuel' bound step body (k + step) st'
        | None => None
        end
      else Some st
  end.

(** The configuration with its sub-pixel flag set to [b]. *)
Definition withSubPixel (b : bool) (config : Config) : Config :=
  {| interrogationWindow := interrogationWindow config;
     overlap := overlap config;
     searchRange := searchRange config;
     subPixelAccuracy := b;
     outlierThreshold := outlierThreshold config;
     minimumCorrelation := minimumCorrelation config |}.

Definition stepSize (config : Config) : Z :=
  floor (Z2F (interrogationWindow config) * (1 - overlap config))%float.

(** The body of the two grid loops of [computePIVField].  The offsets are
    integers, so [u] and [v] do not tell -0 from 0: with a search range of
    0 the loops of the search start at [-searchRange], which is -0, and an
    offset stored there is -0; with any other search range the offset 0 is
    reached by adding 1 to -1 and is +0. *)
Definition correlateWindow (image1 image2 : Image) (config : Config)
    (x0 y0 : Z) (vectors : list Vector) : list Vector :=
  let windowSize := interrogationWindow config in
  let window1 :=
    extractWindow (pixels image1) (width image1) (height image1) x0 y0 windowSize in
  let window2 :=
    extractWindow (pixels image2) (width image1) (height image1) x0 y0 windowSize in
  let result :=
    normalizedCrossCorrelation window1 window2 windowSize (searchRange config) in
  if (minimumCorrelation config <=? correlation result)%float
  then vectors ++
       [ {| x := (Z2F x0 + Z2F windowSize / 2)%float;
            y := (Z2F y0 + Z2F windowSize / 2)%float;
            u := Z2F (dx result);
            v := Z2F (dy result);
            vcorrelation := correlation result |} ]
  else vectors.

Definition computePIVField (image1 image2 : Image) (config : Config)
    (fuel : nat) : option (list Vector) :=
  let windowSize := interrogationWindow config in
  let step := stepSize config in
  forLoop fuel (height image1 - windowSize) step
    (fun y0 vectors =>
       forLoop fuel (width image1 - windowSize) step
         (fun x0 vectors => Some (correlateWindow image1 image2 config x0 y0 vectors))
         0 vectors)
    0 [].

Definition magnitude (w : Vector) : float :=
  PrimFloat.sqrt (u w * u w + v w * v w)%float.

(** [sorted[Math.floor(sorted.length / 2)]] *)
Definition middle (sorted : list float) : float :=
  get sorted (length sorted / 2)%nat.

Definition removeOutliers (vectors : list Vector) (threshold : float)
  : list Vector :=
  match vectors with
  | [] => vectors
  | _ =>
      let magnitudes := map magnitude vectors in
      let sorted := sort magnitudes in
      let median := middle sorted in
      let deviations := map (fun m => abs (m - median)%float) magnitudes in
      let sortedDev := sort deviations in
      let mad := middle sortedDev in
      List.filter
        (fun w => (abs (magnitude w - median) <=? threshold * mad)%float)
        vectors
  end.

(** The statistics object; the three calibration keys are only present
    when the [if (pixelsPerMM)] branch ran. *)
Record Statistics := mkStatistics {
  totalVectors : nat;
  validVectors : nat;
  meanU : float;
  meanV : float;
  stdU : float;
  stdV : float;
  maxVelocity : float;
  avgVelocity : float;
  pixelsPerMM : option float;
  maxVelocityMM : option float;
  avgVelocityMM : option float
}.

(** JavaScript truthiness of a number. *)
Definition truthy (c : float) : bool := negb (c =? 0)%float && negb (isNaN c).

(** [Math.pow(d, 2)] *)
Definition sq (d : float) : float := (d * d)%float.

Definition calculateStatistics (vectors : list Vector)
    (calibration : option float) : Statistics :=
  match vectors with
  | [] => mkStatistics 0 0 0 0 0 0 0 0 None None None
  | _ =>
      let n := N2F (length vectors) in
      let meanU := (fold_left (fun s w => s + u w) vectors 0 / n)%float in
      let meanV := (fold_left (fun s w => s + v w) vectors 0 / n)%float in
      let varU := (fold_left (fun s w => s + sq (u w - meanU)) vectors 0 / n)%float in
      let varV := (fold_left (fun s w => s + sq (v w - meanV)) vectors 0 / n)%float in
      let velocities := map magnitude vectors in
      let maxVelocity := max velocities in
      let avgVelocity := (sum velocities / N2F (length velocities))%float in
      let calibrated :=
        match calibration with
        | Some c => if truthy c then Some c else None
        | None => None
        end in
      {| totalVectors := length vectors;
         validVectors := length vectors;
         meanU := meanU;
         meanV := meanV;
         stdU := PrimFloat.sqrt varU;
         stdV := PrimFloat.sqrt varV;
         maxVelocity := maxVelocity;
         avgVelocity := avgVelocity;
         pixelsPerMM := calibrated;
         maxVelocityMM := option_map (fun c => maxVelocity / c)%float calibrated;
         avgVelocityMM := option_map (fun c => avgVelocity / c)%float calibrated |}
  end.

(** The body of the [/process] handler once both images are decoded. *)
Definition processPair (image1 image2 : Image) (config : Config)
    (calibration : option float) (fuel : nat)
  : option (list Vector * Statistics) :=
  match computePIVField image1 image2 config fuel with
  | Some vectors =>
      let filtered := removeOutliers vectors (outlierThreshold config) in
      Some (filtered, calculateStatistics filtered calibration)
  | None => None
  end.

End Advanced.

(** ** The first server *)

Module Basic.
Import JS.

Record Params := mkParams {
  windowWidth : Z;
  windowHeight : Z;
  stepSize : float;
  threshold : float
}.

(** [PIV_PARAMS] (the region-of-interest bounds are used by the grid loop
    only). *)
Definition PIV_PARAMS : Params :=
  {| windowWidth := 48; windowHeight := 128; stepSize := 24; threshold := 3 |}.

(** The two innermost loops of [phaseCorrelate] followed by
    [correlation /= count]. *)
Definition scoreAt (template search : list float) (width height dx dy : Z)
  : float :=
  let '(correlation, count) :=
    fold_left (fun acc y =>
      fold_left (fun (acc : float * float) x =>
        let sy := y + dy in
        let sx := x + dx in
        if (0 <=? sx) && (sx <? width) && (0 <=? sy) && (sy <? height)
        then
          let templateVal := get template (Z.to_nat (y * width + x)) in
          let searchVal := get search (Z.to_nat (sy * width + sx)) in
          ((fst acc + templateVal * searchVal)%float, (snd acc + 1)%float)
        else acc)
        (range 0 (Z.to_nat width)) acc)
      (range 0 (Z.to_nat height)) (0%float, 0%float) in
  (correlation / count)%float.

(** The loop state [bestX], [bestY], [maxCorr]. *)
Record Best := mkBest { bestX : Z; bestY : Z; maxCorr : float }.

Definition improve (score : Z -> Z -> float) (dy dx : Z) (best : Best) : Best :=
  let c := score dx dy in
  if (maxCorr best <? c)%float then mkBest dx dy c else best.

Definition searchRange : Z := 16.

Definition searchLoop (template search : list float) (width height : Z) : Best :=
  fold_left (fun best dy =>
    fold_left (fun best dx =>
      improve (scoreAt template search width height) dy dx best)
      (symRange searchRange) best)
    (symRange searchRange) (mkBest 0 0 (-1)%float).

Record Shift := mkShift { x : float; y : float; correlation : float }.

Definition phaseCorrelate (template search : list float) (width height : Z)
  : Shift :=
  let best := searchLoop template search width height in
  {| x := Z2F (bestX best);
     y := (- Z2F (bestY best))%float;
     correlation := maxCorr best |}.

(** *** The stages of [processImagePair] after the grid loop

    Their inputs are the four parallel arrays the grid loop filled:
    window centres and the shift found in each window. *)

Definition mean (a : list float) : float := (sum a / N2F (length a))%float.

Definition std (a : list float) (m : float) : float :=
  PrimFloat.sqrt
    (fold_left (fun sq n => sq + (n - m) * (n - m))%float a 0%float
     / N2F (length a)).

(** [Math.abs(v - mean) < threshold * std ? v : NaN] *)
Definition mark (thr m s v : float) : float :=
  if (abs (v - m) <? thr * s)%float then v else nan.

(** The indices [j] pushed to [neighbors] for index [i], in the current
    state of the two filtered arrays. *)
Definition neighbors (p : Params) (originsX originsY fX fY : list float)
    (i : nat) : list nat :=
  List.filter (fun j =>
      (abs (get originsX j - get originsX i) <=? stepSize p)%float
      && (abs (get originsY j - get originsY i) <=? stepSize p)%float
      && negb (isNaN (get fX j))
      && negb (isNaN (get fY j)))
    (seq 0 (length originsX)).

(** [a.sort(...)[Math.floor(a.length / 2)]] *)
Definition medianOf (a : list float) : float :=
  let sorted := sort a in get sorted (length sorted / 2)%nat.

(** One iteration of the interpolation loop; the two arrays are updated in
    place, so later iterations see the repaired values. *)
Definition repair (p : Params) (originsX originsY : list float)
    (st : list float * list float) (i : nat) : list float * list float :=
  let '(fX, fY) := st in
  if isNaN (get fX i) || isNaN (get fY i) then
    match neighbors p originsX originsY fX fY i with
    | [] => st
    | nb =>
        (<[i := medianOf (map (get fX) nb)]> fX,
         <[i := medianOf (map (get fY) nb)]> fY)
    end
  else st.

Definition localMedianFilter (p : Params) (originsX originsY fX fY : list float)
  : list float * list float :=
  fold_left (repair p originsX originsY) (seq 0 (length originsX)) (fX, fY).

Record Statistics := mkStatistics {
  totalVectors : nat;
  validVectors : nat;
  meanX : float;
  meanY : float;
  stdX : float;
  stdY : float;
  maxVelocity : float;
  avgVelocity : float;
  pixelsPerMM : float;
  maxVelocityMM : float;
  avgVelocityMM : float
}.

Record Result := mkResult {
  originsX : list float;
  originsY : list float;
  vectorsX : list float;
  vectorsY : list float;
  statistics : Statistics
}.

Definition truthy (c : float) : bool := negb (c =? 0)%float && negb (isNaN c).

(** [processImagePair] from the comment "Filter outliers" on.  The
    calibration is [Some c] when the request carried an object with the
    number [c] under [pixelsPerMM]. *)
Definition processImagePair (p : Params)
    (originsX originsY vectorsX vectorsY : list float)
    (calibration : option float) : Result :=
  let meanX := mean vectorsX in
  let meanY := mean vectorsY in
  let stdX := std vectorsX meanX in
  let stdY := std vectorsY meanY in
  let filteredVectorsX := map (mark (threshold p) meanX stdX) vectorsX in
  let filteredVectorsY := map (mark (threshold p) meanY stdY) vectorsY in
  let '(filteredVectorsX, filteredVectorsY) :=
    localMedianFilter p originsX originsY filteredVectorsX filteredVectorsY in
  let validVectors := List.filter (fun v => negb (isNaN v)) filteredVectorsX in
  let maxVelocity := max (map abs validVectors) in
  let avgVelocity := (sum validVectors / N2F (length validVectors))%float in
  let pixelsPerMM :=
    match calibration with
    | Some c => if truthy c then c else 1%float
    | None => 1%float
    end in
  {| originsX := originsX;
     originsY := originsY;
     vectorsX := filteredVectorsX;
     vectorsY := filteredVectorsY;
     statistics :=
       {| totalVectors := length vectorsX;
          validVectors := length validVectors;
          meanX := meanX;
          meanY := meanY;
          stdX := stdX;
          stdY := stdY;
          maxVelocity := maxVelocity;
          avgVelocity := avgVelocity;
          pixelsPerMM := pixelsPerMM;
          maxVelocityMM := (maxVelocity / pixelsPerMM)%float;
          avgVelocityMM := (avgVelocity / pixelsPerMM)%float |} |}.

End Basic.


(** ** The specification's wording, for comparison *)

Module Spec.
Import JS.

(** The pixel coordinates [(i, j)] of a square patch, row by row. *)
Definition patchPixels (windowSize : Z) : list (Z * Z) :=
  flat_map (fun j => map (fun i => (i, j)) (range 0 (Z.to_nat windowSize)))
    (range 0 (Z.to_nat windowSize)).

Definition insidePatch (windowSize i j : Z) : bool :=
  (0 <=? i) && (i <? windowSize) && (0 <=? j) && (j <? windowSize).

(** The pixels whose shifted coordinates lie inside the patch bounds. *)
Definition overlapPixels (windowSize dx dy : Z) : list (Z * Z) :=
  List.filter (fun p => insidePatch windowSize (fst p + dx) (snd p + dy))
    (patchPixels windowSize).

(** A pixel count, as the number a counter incremented once per pixel
    holds. *)
Definition count {A : Type} (l : list A) : float :=
  fold_left (fun c _ => (c + 1)%float) l 0%float.

(** The zero-mean score over the overlap: the mean-centred template sample
    times the search sample ([centred = false], the specification's
    reading) or times the search sample minus the template mean
    ([centred = true]), summed row by row and divided by
    [overlap_pixel_count * template_std]. *)
Definition zeroMeanScore (centred : bool) (template search : list float)
    (windowSize dx dy : Z) : float :=
  let mean := Advanced.templateMean template in
  let tnorm := Advanced.templateNorm template in
  let overlap := overlapPixels windowSize dx dy in
  let total :=
    fold_left (fun acc p =>
      let t := get tnorm (Z.to_nat (snd p * windowSize + fst p)) in
      let s := get search
                 (Z.to_nat ((snd p + dy) * windowSize + (fst p + dx))) in
      (acc + t * (if centred then s - mean else s))%float)
      overlap 0%float in
  (total / (count overlap * Advanced.templateStd template))%float.

(** No pixel of the patch has a shifted flat index that is in range while
    its shifted coordinates leave the patch, or conversely. *)
Definition noWrap (windowSize : Z) (len : nat) (dx dy : Z) : bool :=
  forallb (fun p =>
      let searchIdx := (snd p + dy) * windowSize + (fst p + dx) in
      Bool.eqb ((0 <=? searchIdx) && (searchIdx <? Z.of_nat len))
               (insidePatch windowSize (fst p + dx) (snd p + dy)))
    (patchPixels windowSize).

Definition inRange (r dx dy : Z) : Prop :=
  - r <= dx <= r /\ - r <= dy <= r.

(** "Smaller-magnitude offset first, then smaller |dx|". *)
Definition prefers (a b : Z * Z) : Prop :=
  let mag2 o := fst o * fst o + snd o * snd o in
  mag2 a < mag2 b \/ (mag2 a = mag2 b /\ Z.abs (fst a) <= Z.abs (fst b)).

(** The scan order of the two search loops: [dy] outermost. *)
Definition scansBefore (a b : Z * Z) : Prop :=
  snd a < snd b \/ (snd a = snd b /\ fst a < fst b).

(** The offsets in the order the search loops visit them. *)
Definition scan (r : Z) : list (Z * Z) :=
  flat_map (fun dy => map (fun dx => (dx, dy)) (symRange r)) (symRange r).

(** The vertex of the parabola through [(-1, a)], [(0, b)], [(1, c)]: the
    fractional peak location a three-point fit adds to the integer
    optimum. *)
Definition parabolaVertex (a b c : float) : float :=
  ((a - c) / (2 * (a - 2 * b + c)))%float.

(** "Ties are broken by preferring the smaller-magnitude offset": every
    offset that reaches the returned score is no closer to zero than the
    returned one. *)
Definition tieBrokenTowardsZero (template search : list float)
    (windowSize searchRange : Z) : Prop :=
  let r := Advanced.normalizedCrossCorrelation template search windowSize searchRange in
  forall dx dy c,
    inRange searchRange dx dy ->
    Advanced.scoreAt template search windowSize dx dy = Some c ->
    (c =? Advanced.correlation r)%float = true ->
    prefers (Advanced.dx r, Advanced.dy r) (dx, dy).

(** "Degenerate configuration is an input error": no result is produced. *)
Definition rejectsDegenerate (image1 image2 : Advanced.Image)
    (config : Advanced.Config) : Prop :=
  Advanced.interrogationWindow config > Advanced.width image1
  \/ Advanced.interrogationWindow config > Advanced.height image1
  \/ Advanced.stepSize config <= 0 ->
  forall calibration fuel,
    Advanced.processPair image1 image2 config calibration fuel = None.

(** The median magnitude and the median absolute deviation of a field, each
    the element [floor(n / 2)] of the sorted list. *)
Definition medianMagnitude (vectors : list Advanced.Vector) : float :=
  Advanced.middle (sort (map Advanced.magnitude vectors)).

Definition madMagnitude (vectors : list Advanced.Vector) : float :=
  Advanced.middle
    (sort (map (fun m => abs (m - medianMagnitude vectors)%float)
               (map Advanced.magnitude vectors))).

(** "Invalid vectors remain in the field". *)
Definition keepsEveryVector (vectors : list Advanced.Vector) (threshold : float)
  : Prop :=
  forall w, In w vectors -> In w (Advanced.removeOutliers vectors threshold).

(** The marks of the "Filter outliers" step for one component: the value,
    or NaN where it is suspect. *)
Definition marks (p : Basic.Params) (a : list float) : list float :=
  map (Basic.mark (Basic.threshold p) (Basic.mean a) (Basic.std a (Basic.mean a))) a.

Definition suspect (p : Basic.Params) (vX vY : list float) (i : nat) : bool :=
  isNaN (get (marks p vX) i) || isNaN (get (marks p vY) i).

(** The neighbours the specification names: within one grid step in both
    axes and themselves not suspect. *)
Definition nonSuspectNeighbors (p : Basic.Params) (oX oY vX vY : list float)
    (i : nat) : list nat :=
  List.filter (fun j =>
      (abs (get oX j - get oX i) <=? Basic.stepSize p)%float
      && (abs (get oY j - get oY i) <=? Basic.stepSize p)%float
      && negb (suspect p vX vY j))
    (seq 0 (length oX)).

(** The local replacement policy as specified: a suspect vector becomes the
    per-axis median of its non-suspect neighbours, or stays as it was when
    it has none. *)
Definition replacesByNonSuspectMedian (p : Basic.Params)
    (oX oY vX vY : list float) : Prop :=
  let r := Basic.processImagePair p oX oY vX vY None in
  forall i, (i < length oX)%nat -> suspect p vX vY i = true ->
    match nonSuspectNeighbors p oX oY vX vY i with
    | [] => get (Basic.vectorsX r) i = get vX i /\
            get (Basic.vectorsY r) i = get vY i
    | nb => get (Basic.vectorsX r) i = Basic.medianOf (map (get vX) nb) /\
            get (Basic.vectorsY r) i = Basic.medianOf (map (get vY) nb)
    end.

(** The state the interpolation loop has reached before iteration [i], read
    off the final array: repaired values below [i], the marks from [i]
    on. *)
Definition seenAt (final marks : list float) (i : nat) : list float :=
  take i final ++ drop i marks.

(** "The same magnitude figures divided by the calibration factor". *)
Definition convertsWhenCalibrated (vectors : list Advanced.Vector) (c : float)
  : Prop :=
  let s := Advanced.calculateStatistics vectors (Some c) in
  Advanced.maxVelocityMM s = Some (Advanced.maxVelocity s / c)%float /\
  Advanced.avgVelocityMM s = Some (Advanced.avgVelocity s / c)%float.

(** The correlation sum of C10 at an offset: the products of the template
    and the shifted search patch over their overlap, not divided. *)
Definition correlationSum (template search : list float) (width height dx dy : Z)
  : float :=
  fold_left (fun acc y =>
    fold_left (fun acc x =>
      let sy := y + dy in
      let sx := x + dx in
      if (0 <=? sx) && (sx <? width) && (0 <=? sy) && (sy <? height)
      then (acc + get template (Z.to_nat (y * width + x))
                  * get search (Z.to_nat (sy * width + sx)))%float
      else acc)
      (range 0 (Z.to_nat width)) acc)
    (range 0 (Z.to_nat height)) 0%float.

(** The number of pixels of that overlap. *)
Definition overlapCount (width height dx dy : Z) : float :=
  fold_left (fun acc y =>
    fold_left (fun acc x =>
      let sy := y + dy in
      let sx := x + dx in
      if (0 <=? sx) && (sx <? width) && (0 <=? sy) && (sy <? height)
      then (acc + 1)%float
      else acc)
      (range 0 (Z.to_nat width)) acc)
    (range 0 (Z.to_nat height)) 0%float.

(** C10 as stated: the shift is [(dx, -dy)] for an offset of the search
    range at which the correlation sum is maximal. *)
Definition negatesSumMaximum (template search : list float) (width height : Z)
  : Prop :=
  exists dx dy,
    inRange Basic.searchRange dx dy /\
    (forall dx' dy', inRange Basic.searchRange dx' dy' ->
       (correlationSum template search width height dx' dy'
        <=? correlationSum template search width height dx dy)%float = true) /\
    Basic.x (Basic.phaseCorrelate template search width height) = Z2F dx /\
    Basic.y (Basic.phaseCorrelate template search width height) = (- Z2F dy)%float.

(** A vector that carries an integer offset. *)
Definition wholePixel (w : Advanced.Vector) : Prop :=
  exists dx dy : Z, Advanced.u w = Z2F dx /\ Advanced.v w = Z2F dy.

End Spec.

(** ** Search loops as scans *)

Module Scan.

(** One step of "keep the first strict maximum". *)
Definition pick {O : Type} (score : O -> option float) (st : O * float) (o : O)
  : O * float :=
  match score o with
  | Some c => if (snd st <? c)%float then (o, c) else st
  | None => st
  end.

(** What a scan of [l] started from [(o0, m0)] ends with: either nothing
    beat [m0], or the result is the first element whose score is not
    strictly exceeded later and is strictly above everything before. *)
Definition scanned {O : Type} (score : O -> option float) (o0 : O) (m0 : float)
    (l : list O) (st : O * float) : Prop :=
  (st = (o0, m0) /\
   forall o c, In o l -> score o = Some c -> (m0 <? c)%float = false)
  \/
  (exists l1 l2,
     l = l1 ++ fst st :: l2 /\
     score (fst st) = Some (snd st) /\
     (m0 <? snd st)%float = true /\
     (forall o c, In o l1 -> score o = Some c -> (snd st <=? c)%float = false) /\
     (forall o c, In o l2 -> score o = Some c -> (snd st <? c)%float = false)).

Definition ofMatch (r : Advanced.Match) : (Z * Z) * float :=
  ((Advanced.dx r, Advanced.dy r), Advanced.correlation r).

Definition scoreOf (template search : list float) (windowSize : Z) (o : Z * Z)
  : option float :=
  Advanced.scoreAt template search windowSize (fst o) (snd o).

Definition ofBest (b : Basic.Best) : (Z * Z) * float :=
  ((Basic.bestX b, Basic.bestY b), Basic.maxCorr b).

Definition shiftScore (template search : list float) (width height : Z) (o : Z * Z)
  : option float :=
  Some (Basic.scoreAt template search width height (fst o) (snd o)).

(** The two filtered arrays after the iterations [0 .. i-1] of the
    interpolation loop. *)
Definition after (p : Basic.Params) (originsX originsY fX fY : list float)
    (i : nat) : list float * list float :=
  fold_left (Basic.repair p originsX originsY) (seq 0 i) (fX, fY).

(** The iterations a counting loop has left at [k]. *)
Definition iterations (bound step k : Z) : nat :=
  Z.to_nat ((bound - k + step - 1) / step).

(** What [computePIVField] reports about one window: where it sits, the
    integer offset found there, and a correlation that passed the
    threshold. *)
Definition reported (image1 : Advanced.Image) (config : Advanced.Config)
    (w : Advanced.Vector) : Prop :=
  exists x0 y0 dx dy,
    0 <= x0 < Advanced.width image1 - Advanced.interrogationWindow config /\
    0 <= y0 < Advanced.height image1 - Advanced.interrogationWindow config /\
    (Advanced.stepSize config | x0) /\ (Advanced.stepSize config | y0) /\
    Advanced.x w = (JS.Z2F x0 + JS.Z2F (Advanced.interrogationWindow config) / 2)%float /\
    Advanced.y w = (JS.Z2F y0 + JS.Z2F (Advanced.interrogationWindow config) / 2)%float /\
    Advanced.u w = JS.Z2F dx /\ Advanced.v w = JS.Z2F dy /\
    (0 <= Advanced.searchRange config ->
     Spec.inRange (Advanced.searchRange config) dx dy) /\
    (Advanced.minimumCorrelation config <=? Advanced.vcorrelation w)%float = true.

End Scan.

(** ** Sample inputs *)

Module Sample.
Import JS.

Definition bytes (l : list N) : list Byte.byte :=
  map (fun n => default Byte.x00 (Strings.Byte.of_N n)) l.

(** A 2x2 template with texture, and two 2x2 search patches. *)
Definition stripes : list float := [0; 0; 4; 4]%float.
Definition ramp : list float := [0; 0; 1; 1]%float.
Definition grey : list float := [2; 2; 2; 2]%float.

(** A bright spot in a 3x3 patch, and the same spot one row lower. *)
Definition spot : list float := [0;0;0; 0;9;0; 0;0;0]%float.
Definition spotBelow : list float := [0;0;0; 0;0;0; 0;9;0]%float.

(** A 3x3 patch with a bump in the middle. *)
Definition bump : list float := [1;1;1; 1;2;1; 1;1;1]%float.

(** A frame smaller than the default window. *)
Definition tiny : Advanced.Image := Advanced.mkImage (bytes [1; 2; 3; 4]%N) 2 2.

(** A blurred particle that moves one pixel to the right and smears. *)
Definition particleConfig : Advanced.Config :=
  Advanced.mkConfig 4 0.5 2 true 3 0x1.999999999999ap-4.

Definition particleA : Advanced.Image :=
  Advanced.mkImage (bytes [ 0; 0; 0; 0; 0;
                            2; 8; 2; 0; 0;
                            4;16; 4; 0; 0;
                            2; 8; 2; 0; 0;
                            0; 0; 0; 0; 0 ]%N) 5 5.

Definition particleB : Advanced.Image :=
  Advanced.mkImage (bytes [ 0; 0; 0; 0; 0;
                            1; 5; 8; 6; 0;
                            2;10;16;12; 0;
                            1; 5; 8; 6; 0;
                            0; 0; 0; 0; 0 ]%N) 5 5.

Definition windowA : list float :=
  Advanced.extractWindow (Advanced.pixels particleA) 5 5 0 0 4.
Definition windowB : list float :=
  Advanced.extractWindow (Advanced.pixels particleB) 5 5 0 0 4.

Definition flow (u v : float) : Advanced.Vector := Advanced.mkVector 0 0 u v 1.

(** [a + b] vectors [(1, 0)] around one outlier [(10, 0)]. *)
Definition fieldWithOutlier (a b : nat) : list Advanced.Vector :=
  replicate a (flow 1 0) ++ flow 10 0 :: replicate b (flow 1 0).

(** A uniform flow seen in two neighbouring windows. *)
Definition centresX : list float := [24; 48]%float.
Definition centresY : list float := [64; 64]%float.
Definition uniformX : list float := [1; 1]%float.
Definition uniformY : list float := [0; 0]%float.

(** A row of 24 windows with two adjacent outliers at indices 10 and 11. *)
Definition rowX : list float := map (fun k => (24 * N2F k)%float) (seq 0 24).
Definition rowY : list float := replicate 24 64%float.
Definition chainX : list float :=
  replicate 9 0%float ++ [1; 100; 100; 0]%float ++ replicate 11 0%float.
Definition chainY : list float := concat (replicate 12 [0; 1]%float).

(** The particle configuration with full overlap. *)
Definition fullOverlap : Advanced.Config :=
  Advanced.mkConfig 4 1 2 true 3 0x1.999999999999ap-4.

End Sample.

(** ** The request handlers of the advanced server *)

Module AdvancedRoutes.
Import JS Advanced.

(** What a handler answers: a JSON body, or status 400 with a message. *)
Inductive Response (A : Type) : Type :=
| Ok (body : A)
| BadRequest (error : String.string).
Arguments Ok {A} body.
Arguments BadRequest {A} error.

(** One entry of [results] in the [/process-raw] handler. *)
Record PairResult := mkPairResult {
  pairIndex : nat;
  vectors : list Vector;
  statistics : Statistics
}.

(** The body [/process-raw] answers with (the result id aside). *)
Record RawSummary := mkRawSummary {
  pairCount : nat;
  averageVectors : Z;
  results : list Statistics
}.

(** [frames[i]]: every frame carries the request's width and height. *)
Definition frame (width height : Z) (buffers : list (list Byte.byte)) (i : nat)
  : Image :=
  mkImage (default [] (buffers !! i)) width height.

(** The loop over consecutive frame pairs; [None] when a pair runs out of
    fuel. *)
Fixpoint processPairs (config : Config) (width height : Z)
    (buffers : list (list Byte.byte)) (calibration : option float) (fuel : nat)
    (indices : list nat) (results : list PairResult) : option (list PairResult) :=
  match indices with
  | [] => Some results
  | i :: rest =>
      match processPair (frame width height buffers i)
                        (frame width height buffers (S i))
                        config calibration fuel with
      | Some (filtered, stats) =>
          processPairs config width height buffers calibration fuel rest
            (results ++ [mkPairResult i filtered stats])
      | None => None
      end
  end.

(** The [/process-raw] handler from the parameter check on, given the frame
    buffers found under [rawDataPath] and the current [PIV_CONFIG]. *)
Definition processRaw (config : Config) (rawDataPath : String.string)
    (width height : Z) (buffers : list (list Byte.byte))
    (calibration : option float) (fuel : nat) : option (Response RawSummary) :=
  if String.eqb rawDataPath String.EmptyString || (width =? 0) || (height =? 0)
  then Some (BadRequest "Missing required parameters: rawDataPath, width, height")
  else if (length buffers <? 2)%nat
  then Some (BadRequest "Need at least 2 frames for PIV analysis")
  else
    match processPairs config width height buffers calibration fuel
            (seq 0 (length buffers - 1)) [] with
    | Some results =>
        Some (Ok {| pairCount := length results;
                    averageVectors :=
                      fold_left (fun sum r => sum + Z.of_nat (length (vectors r)))
                        results 0
                      / Z.of_nat (length results);
                    results := map statistics results |})
    | None => None
    end.

(** The configuration [/process-realtime] builds for one call. *)
Definition coarseConfig (config : Config) : Config :=
  {| interrogationWindow := 64;
     overlap := 0;
     searchRange := 16;
     subPixelAccuracy := subPixelAccuracy config;
     outlierThreshold := outlierThreshold config;
     minimumCorrelation := minimumCorrelation config |}.

(** The [/process-realtime] handler once both frames are decoded: no
    outlier filter, no calibration. *)
Definition processRealtime (config : Config) (image1 image2 : Image) (fuel : nat)
  : option (list Vector * Statistics) :=
  match computePIVField image1 image2 (coarseConfig config) fuel with
  | Some vectors => Some (vectors, calculateStatistics vectors None)
  | None => None
  end.

End AdvancedRoutes.

(** ** The first server from the decoded frames on *)

Module BasicFront.
Import JS.

(** [PIV_PARAMS] in full.  The window sizes are even, so that their halves,
    the paddings, are integers. *)
Record Params := mkParams {
  windowWidth : Z;
  windowHeight : Z;
  stepSize : Z;
  threshold : Z;
  roiXMin : Z;
  roiXMax : Z;
  roiYMin : Z;
  roiYMax : Z
}.

Definition PIV_PARAMS : Params :=
  {| windowWidth := 48; windowHeight := 128; stepSize := 24; threshold := 3;
     roiXMin := 17; roiXMax := 1260; roiYMin := 0; roiYMax := 800 |}.

(** The part of the parameters the filtering stages read. *)
Definition filterParams (p : Params) : Basic.Params :=
  {| Basic.windowWidth := windowWidth p;
     Basic.windowHeight := windowHeight p;
     Basic.stepSize := Z2F (stepSize p);
     Basic.threshold := Z2F (threshold p) |}.

(** What [imageToPixelArray] resolves to. *)
Record Frame := mkFrame {
  data : list Byte.byte;
  width : Z;
  height : Z
}.

(** The two reflection tests of the padding loop, in their order. *)
Definition reflect (size src : Z) : Z :=
  let src := if src <? 0 then - src - 1 else src in
  if size <=? src then 2 * size - src - 1 else src.

(** [frame.data[srcIdx]]: [undefined], stored as NaN, outside the array. *)
Definition sample (data : list Byte.byte) (srcIdx : Z) : float :=
  if srcIdx <? 0 then nan
  else match data !! Z.to_nat srcIdx with
       | Some b => Z2F (Z.of_N (Strings.Byte.to_N b))
       | None => nan
       end.

(** The padding loop for one frame: the padded [Float32Array]. *)
Definition padFrame (data : list Byte.byte)
    (width height padLeft padRight padTop padBottom : Z) : list float :=
  let paddedWidth := width + padLeft + padRight in
  let paddedHeight := height + padTop + padBottom in
  flat_map (fun y =>
    map (fun x =>
      let srcX := reflect width (x - padLeft) in
      let srcY := reflect height (y - padTop) in
      fround (sample data (srcY * width + srcX)))
      (range 0 (Z.to_nat paddedWidth)))
    (range 0 (Z.to_nat paddedHeight)).

(** A read of a [Float32Array] at an integer index. *)
Definition at_ (a : list float) (i : Z) : float :=
  if i <? 0 then nan else get a (Z.to_nat i).

(** [extractWindow] of the first server: a window of the padded frame. *)
Definition extractWindow (paddedData : list float)
    (x y width height paddedWidth : Z) : list float :=
  flat_map (fun row =>
    map (fun col => at_ paddedData ((y + row) * paddedWidth + (x + col)))
      (range 0 (Z.to_nat width)))
    (range 0 (Z.to_nat height)).

(** The block of [width] x [height] samples of an unpadded frame whose
    top-left corner is [(x0, y0)], as a [Float32Array] holds them. *)
Definition frameBlock (data : list Byte.byte) (frameWidth x0 y0 width height : Z)
  : list float :=
  flat_map (fun row =>
    map (fun col => fround (sample data ((y0 + row) * frameWidth + (x0 + col))))
      (range 0 (Z.to_nat width)))
    (range 0 (Z.to_nat height)).

(** The four arrays the grid loop fills. *)
Record Arrays := mkArrays {
  originsX : list float;
  originsY : list float;
  vectorsX : list float;
  vectorsY : list float
}.

(** What the handler gets from [processImagePair]: its result, or the
    message of the error it throws. *)
Inductive Outcome : Type :=
| Returned (result : Basic.Result)
| Thrown (message : String.string).

Section Hanning.

(** [applyHanningWindow] weighs a patch with cosines; it is taken as
    given. *)
Variable applyHanningWindow : list float -> Z -> Z -> list float.

(** The body of the two grid loops. *)
Definition window (p : Params) (frame1Padded frame2Padded : list float)
    (paddedWidth padLeft padTop x y : Z) (acc : Arrays) : Arrays :=
  let xCenter := x - padLeft + windowWidth p / 2 in
  let yCenter := y - padTop + windowHeight p / 2 in
  if (roiXMin p <=? xCenter) && (xCenter <=? roiXMax p)
     && (roiYMin p <=? yCenter) && (yCenter <=? roiYMax p)
  then
    let template :=
      extractWindow frame1Padded x y (windowWidth p) (windowHeight p) paddedWidth in
    let search :=
      extractWindow frame2Padded x y (windowWidth p) (windowHeight p) paddedWidth in
    let templateWindowed :=
      applyHanningWindow template (windowWidth p) (windowHeight p) in
    let searchWindowed :=
      applyHanningWindow search (windowWidth p) (windowHeight p) in
    let shift :=
      Basic.phaseCorrelate templateWindowed searchWindowed
        (windowWidth p) (windowHeight p) in
    {| originsX := originsX acc ++ [Z2F xCenter];
       originsY := originsY acc ++ [Z2F yCenter];
       vectorsX := vectorsX acc ++ [Basic.x shift];
       vectorsY := vectorsY acc ++ [Basic.y shift] |}
  else acc.

(** The shift between the blocks of two frames at [(x0, y0)]. *)
Definition shiftAt (p : Params) (frame1 frame2 : Frame) (x0 y0 : Z) : Basic.Shift :=
  Basic.phaseCorrelate
    (applyHanningWindow
       (frameBlock (data frame1) (width frame1) x0 y0 (windowWidth p) (windowHeight p))
       (windowWidth p) (windowHeight p))
    (applyHanningWindow
       (frameBlock (data frame2) (width frame1) x0 y0 (windowWidth p) (windowHeight p))
       (windowWidth p) (windowHeight p))
    (windowWidth p) (windowHeight p).

(** The grid loops; [k <= bound] is [k < bound + 1] on integers. *)
Definition grid (p : Params) (frame1Padded frame2Padded : list float)
    (paddedWidth paddedHeight padLeft padRight padTop padBottom : Z) (fuel : nat)
  : option Arrays :=
  Advanced.forLoop fuel (paddedHeight - padBottom - windowHeight p + 1) (stepSize p)
    (fun y acc =>
       Advanced.forLoop fuel (paddedWidth - padRight - windowWidth p + 1) (stepSize p)
         (fun x acc =>
            Some (window p frame1Padded frame2Padded paddedWidth padLeft padTop x y acc))
         padLeft acc)
    padTop (mkArrays [] [] [] []).

(** Entry [k] of the four arrays comes from the window whose top-left
    corner in the unpadded frames is [(x0, y0)]. *)
Definition entryAt (p : Params) (frame1 frame2 : Frame) (a : Arrays) (k : nat)
    (x0 y0 : Z) : Prop :=
  originsX a !! k = Some (Z2F (x0 + windowWidth p / 2)) /\
  originsY a !! k = Some (Z2F (y0 + windowHeight p / 2)) /\
  vectorsX a !! k = Some (Basic.x (shiftAt p frame1 frame2 x0 y0)) /\
  vectorsY a !! k = Some (Basic.y (shiftAt p frame1 frame2 x0 y0)).

(** The four arrays are parallel, and every entry comes from a window that
    lies inside the unpadded frame, at a multiple of the step, with its
    centre in the region of interest. *)
Definition gridded (p : Params) (frame1 frame2 : Frame) (a : Arrays) : Prop :=
  length (originsY a) = length (originsX a) /\
  length (vectorsX a) = length (originsX a) /\
  length (vectorsY a) = length (originsX a) /\
  forall k, (k < length (originsX a))%nat ->
    exists x0 y0,
      0 <= x0 /\ x0 + windowWidth p <= width frame1 /\
      0 <= y0 /\ y0 + windowHeight p <= height frame1 /\
      (stepSize p | x0) /\ (stepSize p | y0) /\
      roiXMin p <= x0 + windowWidth p / 2 <= roiXMax p /\
      roiYMin p <= y0 + windowHeight p / 2 <= roiYMax p /\
      entryAt p frame1 frame2 a k x0 y0.

(** [processImagePair] once both images are decoded. *)
Definition processImagePair (p : Params) (frame1 frame2 : Frame)
    (calibration : option float) (fuel : nat) : option Outcome :=
  if negb (width frame1 =? width frame2) || negb (height frame1 =? height frame2)
  then Some (Thrown "Images must have the same dimensions")
  else
    let padLeft := windowWidth p / 2 in
    let padRight := windowWidth p / 2 in
    let padTop := windowHeight p / 2 in
    let padBottom := windowHeight p / 2 in
    let paddedWidth := width frame1 + padLeft + padRight in
    let paddedHeight := height frame1 + padTop + padBottom in
    let frame1Padded :=
      padFrame (data frame1) (width frame1) (height frame1)
        padLeft padRight padTop padBottom in
    let frame2Padded :=
      padFrame (data frame2) (width frame1) (height frame1)
        padLeft padRight padTop padBottom in
    match grid p frame1Padded frame2Padded paddedWidth paddedHeight
            padLeft padRight padTop padBottom fuel with
    | Some a =>
        Some (Returned
                (Basic.processImagePair (filterParams p)
                   (originsX a) (originsY a) (vectorsX a) (vectorsY a) calibration))
    | None => None
    end.

(** One step of the [/batch-process] loop: a pair that throws leaves an
    error entry and the loop goes on. *)
Inductive BatchEntry : Type :=
| PairResult (result : Basic.Result)
| PairError (message : String.string).

Definition batchEntry (p : Params) (calibration : option float) (fuel : nat)
    (files : list Frame) (i : nat) : option BatchEntry :=
  match files !! i, files !! S i with
  | Some frame1, Some frame2 =>
      match processImagePair p frame1 frame2 calibration fuel with
      | Some (Returned result) => Some (PairResult result)
      | Some (Thrown message) => Some (PairError message)
      | None => None
      end
  | _, _ => None
  end.

(** [for (let i = 0; i < files.length - 1; i += 2)]; [steps] bounds the
    number of loop tests. *)
Fixpoint batchLoop (p : Params) (calibration : option float) (fuel : nat)
    (files : list Frame) (i steps : nat) (results : list BatchEntry)
  : option (list BatchEntry) :=
  match steps with
  | O => None
  | S remaining' =>
      if (i <? length files - 1)%nat then
        match batchEntry p calibration fuel files i with
        | Some entry =>
            batchLoop p calibration fuel files (i + 2) remaining' (results ++ [entry])
        | None => None
        end
      else Some results
  end.

(** The [/batch-process] handler, its files already decoded. *)
Definition batchProcess (p : Params) (calibration : option float) (fuel : nat)
    (files : list Frame) : option (AdvancedRoutes.Response (list BatchEntry)) :=
  if (length files <? 2)%nat
  then Some (AdvancedRoutes.BadRequest "At least 2 images are required")
  else
    match batchLoop p calibration fuel files 0 (S (length files)) [] with
    | Some results => Some (AdvancedRoutes.Ok results)
    | None => None
    end.

End Hanning.

End BasicFront.

(** * Properties *)

Import JS.

(** ** Loops as folds over the visited values *)

Section Folds.
Context {A B C : Type}.

Lemma fold_left_flat_map (f : A -> C -> A) (g : B -> list C) (l : list B) (a : A) :
  fold_left f (flat_map g l) a = fold_left (fun a b => fold_left f (g b) a) l a.
Proof.
  revert a. induction l as [|b l IH]; intros a; simpl; [reflexivity|].
  now rewrite fold_left_app, IH.
Qed.

Lemma fold_left_map (f : A -> C -> A) (h : B -> C) (l : list B) (a : A) :
  fold_left f (map h l) a = fold_left (fun a b => f a (h b)) l a.
Proof. revert a. induction l as [|b l IH]; intros a; simpl; auto. Qed.

Lemma fold_left_guard (f : A -> B -> A) (p : B -> bool) (l : list B) (a : A) :
  fold_left (fun a b => if p b then f a b else a) l a
  = fold_left f (List.filter p l) a.
Proof.
  revert a. induction l as [|b l IH]; intros a; simpl; [reflexivity|].
  destruct (p b); simpl; apply IH.
Qed.

Lemma fold_left_ext_in (f g : A -> B -> A) (l : list B) (a : A) :
  (forall a b, In b l -> f a b = g a b) -> fold_left f l a = fold_left g l a.
Proof.
  revert a. induction l as [|b l IH]; intros a H; simpl; [reflexivity|].
  rewrite H by (now left). apply IH. intros. apply H. now right.
Qed.

Lemma fold_left_commute (h : A -> C) (f : A -> B -> A) (g : C -> B -> C)
    (l : list B) (a : A) :
  (forall a b, h (f a b) = g (h a) b) ->
  h (fold_left f l a) = fold_left g l (h a).
Proof.
  intros H. revert a. induction l as [|b l IH]; intros a; simpl; [reflexivity|].
  now rewrite IH, H.
Qed.

End Folds.

Lemma fold_left_pair {B : Type} (f : float -> B -> float) (l : list B) (s c : float) :
  fold_left (fun (acc : float * float) b => (f (fst acc) b, (snd acc + 1)%float)) l (s, c)
  = (fold_left f l s, fold_left (fun c _ => (c + 1)%float) l c).
Proof. revert s c. induction l as [|b l IH]; intros s c; simpl; auto. Qed.

Lemma map_replicate {A B : Type} (f : A -> B) (n : nat) (x : A) :
  map f (replicate n x) = replicate n (f x).
Proof. induction n as [|n IH]; simpl; congruence. Qed.

Lemma in_range lo n k : In k (range lo n) <-> lo <= k < lo + Z.of_nat n.
Proof.
  unfold range. rewrite in_map_iff. split.
  - intros (i & <- & Hi%in_seq). lia.
  - intros H. exists (Z.to_nat (k - lo)). split; [lia|]. apply in_seq. lia.
Qed.

Lemma in_symRange r k : In k (symRange r) <-> - r <= k <= r.
Proof. unfold symRange. rewrite in_range. lia. Qed.

Lemma range_length lo n : length (range lo n) = n.
Proof. unfold range. now rewrite length_map, length_seq. Qed.

Lemma range_sorted lo n : StronglySorted Z.lt (range lo n).
Proof.
  unfold range. revert lo. induction n as [|n IH]; intros lo; simpl.
  - constructor.
  - constructor.
    + rewrite <- seq_shift, map_map.
      replace (map (fun k => lo + Z.of_nat (S k)) (seq 0 n))
        with (map (fun k => (lo + 1) + Z.of_nat k) (seq 0 n))
        by (apply map_ext; intros; lia).
      apply IH.
    + apply List.Forall_forall. intros k (i & <- & Hi%in_seq)%in_map_iff. lia.
Qed.

Lemma in_patchPixels windowSize i j :
  In (i, j) (Spec.patchPixels windowSize)
  <-> 0 <= i < windowSize /\ 0 <= j < windowSize.
Proof.
  unfold Spec.patchPixels. rewrite in_flat_map. split.
  - intros (y & Hy%in_range & (x & [= <- <-] & Hx%in_range)%in_map_iff). lia.
  - intros [Hi Hj]. exists j. split; [apply in_range; lia|].
    apply in_map_iff. exists i. split; [reflexivity|apply in_range; lia].
Qed.

(** Two binary64 numbers that an exact comparison tells apart differ. *)
Ltac float_neq :=
  let E := fresh "E" in
  intros E;
  match type of E with
  | Some ?a = Some ?b =>
      apply (f_equal (fun o : option float =>
               match o with
               | Some f => PrimFloat.Leibniz.eqb f b
               | None => false
               end)) in E
  | ?a = ?b => apply (f_equal (fun f : float => PrimFloat.Leibniz.eqb f b)) in E
  end;
  vm_compute in E; inversion E.

(** ** The order of binary64 numbers *)

Ltac sf_signs :=
  repeat match goal with s : bool |- _ => destruct s end;
  simpl; try congruence.

Ltac sf_compare :=
  repeat match goal with
  | |- context [PosDef.Pos.compare_cont Eq ?p ?q] =>
      change (PosDef.Pos.compare_cont Eq p q) with (Pos.compare p q)
  end;
  repeat match goal with
  | |- context [Z.compare ?a ?b] => destruct (Z.compare_spec a b)
  end; subst; simpl; try congruence; try lia;
  repeat match goal with
  | |- context [Pos.compare ?a ?b] => destruct (Pos.compare_spec a b)
  end; subst; simpl; try congruence; try lia.

Lemma SFltb_trans a b c :
  SFltb a b = true -> SFltb b c = true -> SFltb a c = true.
Proof.
  unfold SFltb, SFcompare.
  destruct a as [sa|sa| |sa ma ea], b as [sb|sb| |sb mb eb],
           c as [sc|sc| |sc mc ec]; sf_signs; sf_compare.
Qed.

Lemma SFeqb_ltb a b c : SFeqb a b = true -> SFltb c a = SFltb c b.
Proof.
  unfold SFltb, SFeqb, SFcompare.
  destruct a as [sa|sa| |sa ma ea], b as [sb|sb| |sb mb eb],
           c as [sc|sc| |sc mc ec]; sf_signs; sf_compare.
Qed.

Lemma SFltb_irrefl a : SFltb a a = false.
Proof.
  unfold SFltb, SFcompare. destruct a as [sa|sa| |sa ma ea]; sf_signs; sf_compare.
Qed.

Lemma SFleb_ltb_eqb a b : SFleb a b = SFltb a b || SFeqb a b.
Proof. unfold SFleb, SFltb, SFeqb. now destruct (SFcompare a b) as [[]|]. Qed.

Lemma SFltb_not_nan a b : SFltb a b = true -> SFeqb b b = true /\ SFeqb a a = true.
Proof.
  unfold SFltb, SFeqb, SFcompare.
  destruct a as [sa|sa| |sa ma ea], b as [sb|sb| |sb mb eb]; sf_signs; sf_compare.
Qed.

Lemma SFltb_not_eqb a b : SFltb a b = true -> SFeqb b a = false.
Proof.
  unfold SFltb, SFeqb, SFcompare.
  destruct a as [sa|sa| |sa ma ea], b as [sb|sb| |sb mb eb]; sf_signs; sf_compare.
Qed.

Lemma ltb_trans (a b c : float) :
  (a <? b)%float = true -> (b <? c)%float = true -> (a <? c)%float = true.
Proof. rewrite !FloatAxioms.ltb_spec. apply SFltb_trans. Qed.

Lemma eqb_ltb (a b c : float) :
  (a =? b)%float = true -> (c <? a)%float = (c <? b)%float.
Proof. rewrite FloatAxioms.eqb_spec, !FloatAxioms.ltb_spec. apply SFeqb_ltb. Qed.

Lemma ltb_irrefl (a : float) : (a <? a)%float = false.
Proof. rewrite FloatAxioms.ltb_spec. apply SFltb_irrefl. Qed.

Lemma leb_ltb_eqb (a b : float) :
  (a <=? b)%float = (a <? b)%float || (a =? b)%float.
Proof.
  rewrite FloatAxioms.leb_spec, FloatAxioms.ltb_spec, FloatAxioms.eqb_spec.
  apply SFleb_ltb_eqb.
Qed.

Lemma leb_false_ltb (a b : float) :
  (a <=? b)%float = false -> (a <? b)%float = false.
Proof. rewrite leb_ltb_eqb. now intros [? ?]%orb_false_iff. Qed.

(** A number above another one is neither NaN nor equal to it. *)
Lemma ltb_not_nan (a b : float) :
  (a <? b)%float = true -> isNaN b = false /\ isNaN a = false.
Proof.
  unfold isNaN, is_nan. rewrite FloatAxioms.ltb_spec, !FloatAxioms.eqb_spec.
  intros [-> ->]%SFltb_not_nan. auto.
Qed.

Lemma ltb_not_eqb (a b : float) :
  (a <? b)%float = true -> (b =? a)%float = false.
Proof. rewrite FloatAxioms.ltb_spec, FloatAxioms.eqb_spec. apply SFltb_not_eqb. Qed.

(** Once [c] has beaten [m], whatever did not beat [m] stays strictly
    below [c] (or is NaN). *)
Lemma beaten_stays_below (m c c' : float) :
  (m <? c)%float = true -> (m <? c')%float = false -> (c <=? c')%float = false.
Proof.
  intros Hmc Hmc'. rewrite leb_ltb_eqb. apply orb_false_iff. split.
  - destruct (c <? c')%float eqn:E; [|reflexivity].
    now rewrite (ltb_trans _ _ _ Hmc E) in Hmc'.
  - destruct (c =? c')%float eqn:E; [|reflexivity].
    now rewrite <- (eqb_ltb _ _ m E), Hmc in Hmc'.
Qed.

(** ** Keeping the first strict maximum of a scan *)

Lemma pick_scanned {O : Type} (score : O -> option float) (o0 : O) (m0 : float)
    (l : list O) :
  Scan.scanned score o0 m0 l (fold_left (Scan.pick score) l (o0, m0)).
Proof.
  unfold Scan.scanned. induction l as [|a l IH] using rev_ind.
  - left. split; [reflexivity|]. intros o c [].
  - rewrite fold_left_app. cbn [fold_left].
    destruct (fold_left (Scan.pick score) l (o0, m0)) as [o m] eqn:Efold.
    unfold Scan.pick. cbn [fst snd] in *.
    destruct (score a) as [c|] eqn:Ea; [destruct (m <? c)%float eqn:Elt|];
      cbn [fst snd].
    + (* [a] becomes the running best *)
      right. exists l, []. cbn [fst snd]. repeat split; auto.
      * destruct IH as [[[= -> ->] _]|(l1 & l2 & _ & _ & Hm0 & _)]; auto.
        eapply ltb_trans; eauto.
      * intros o' c' Hin Ho'.
        destruct IH as [[[= -> ->] Hall]|(l1 & l2 & -> & Ho & _ & H1 & H2)].
        -- eapply beaten_stays_below; eauto.
        -- apply in_app_or in Hin as [Hin|[<-|Hin]].
           ++ eapply beaten_stays_below; eauto using leb_false_ltb.
           ++ assert (c' = m) as -> by congruence.
              eapply beaten_stays_below; eauto using ltb_irrefl.
           ++ eapply beaten_stays_below; eauto.
      * intros o' c' [].
    + (* [a] does not beat the running best *)
      destruct IH as [[[= -> ->] Hall]|(l1 & l2 & -> & Ho & Hm0 & H1 & H2)].
      * left. split; [reflexivity|].
        intros o' c' [Hin|[<-|[]]]%in_app_or Ho'; eauto. congruence.
      * right. exists l1, (l2 ++ [a]).
        rewrite <- app_assoc. cbn [app]. repeat split; auto.
        intros o' c' [Hin|[<-|[]]]%in_app_or Ho'; eauto. congruence.
    + (* no score at [a] *)
      destruct IH as [[[= -> ->] Hall]|(l1 & l2 & -> & Ho & Hm0 & H1 & H2)].
      * left. split; [reflexivity|].
        intros o' c' [Hin|[<-|[]]]%in_app_or Ho'; eauto. congruence.
      * right. exists l1, (l2 ++ [a]).
        rewrite <- app_assoc. cbn [app]. repeat split; auto.
        intros o' c' [Hin|[<-|[]]]%in_app_or Ho'; eauto. congruence.
Qed.

(** ** The scan order *)

Lemma in_scan r dx dy : In (dx, dy) (Spec.scan r) <-> Spec.inRange r dx dy.
Proof.
  unfold Spec.scan, Spec.inRange. rewrite in_flat_map. split.
  - intros (y & Hy%in_symRange & (x & [= <- <-] & Hx%in_symRange)%in_map_iff). lia.
  - intros [Hx Hy]. exists dy. split; [now apply in_symRange|].
    apply in_map_iff. exists dx. split; [reflexivity|now apply in_symRange].
Qed.

Lemma scan_rows_sorted (xs ys : list Z) :
  StronglySorted Z.lt xs -> StronglySorted Z.lt ys ->
  StronglySorted Spec.scansBefore
    (flat_map (fun dy => map (fun dx => (dx, dy)) xs) ys).
Proof.
  intros Hxs. induction 1 as [|y ys Hys IH Hall]; simpl; [constructor|].
  apply StronglySorted_app_2; [| |exact IH].
  - intros [x1 y1] [x2 y2].
    intros (? & [= <- <-] & _)%list_elem_of_In%in_map_iff.
    intros (y' & Hy' & (? & [= <- <-] & _)%in_map_iff)%list_elem_of_In%in_flat_map.
    left. simpl. rewrite Forall_forall in Hall. apply Hall. now apply list_elem_of_In.
  - clear -Hxs. induction Hxs as [|x xs _ IH Hall]; simpl; constructor; [exact IH|].
    apply Forall_forall. intros [x' y'] (? & [= <- <-] & Hin)%list_elem_of_In%in_map_iff.
    right. simpl. split; [reflexivity|]. rewrite Forall_forall in Hall.
    apply Hall. now apply list_elem_of_In.
Qed.

Lemma scan_sorted r : StronglySorted Spec.scansBefore (Spec.scan r).
Proof. apply scan_rows_sorted; apply range_sorted. Qed.

(** In a scan split around [o], everything from [o] on is [o] or comes
    after it. *)
Lemma scan_split_after r l1 o l2 o' :
  Spec.scan r = l1 ++ o :: l2 -> In o' (o :: l2) ->
  o' = o \/ Spec.scansBefore o o'.
Proof.
  intros E [->|Hin]; [now left|right].
  pose proof (scan_sorted r) as Hs. rewrite E in Hs.
  apply StronglySorted_app_1_r, StronglySorted_cons in Hs as [Hall _].
  rewrite Forall_forall in Hall. apply Hall. now apply list_elem_of_In.
Qed.

(** ** The exhaustive search of the advanced server *)

(** The two pixel loops visit the patch row by row. *)
Lemma accumulate_patchPixels tnorm mean search windowSize dx dy :
  Advanced.accumulate tnorm mean search windowSize dx dy
  = fold_left (fun (acc : float * float) p =>
      let searchIdx := (snd p + dy) * windowSize + (fst p + dx) in
      if (0 <=? searchIdx) && (searchIdx <? Z.of_nat (length search))
      then ((fst acc + get tnorm (Z.to_nat (snd p * windowSize + fst p))
                       * (get search (Z.to_nat searchIdx) - mean))%float,
            (snd acc + 1)%float)
      else acc) (Spec.patchPixels windowSize) (0%float, 0%float).
Proof.
  unfold Advanced.accumulate, Spec.patchPixels.
  rewrite fold_left_flat_map. apply fold_left_ext_in. intros acc j _.
  now rewrite fold_left_map.
Qed.

Lemma noWrap_filter windowSize (search : list float) dx dy :
  Spec.noWrap windowSize (length search) dx dy = true ->
  List.filter (fun p =>
      (0 <=? (snd p + dy) * windowSize + (fst p + dx))
      && ((snd p + dy) * windowSize + (fst p + dx) <? Z.of_nat (length search)))
    (Spec.patchPixels windowSize)
  = Spec.overlapPixels windowSize dx dy.
Proof.
  unfold Spec.noWrap, Spec.overlapPixels. rewrite forallb_forall. intros H.
  apply filter_ext_in. intros p Hp. specialize (H p Hp). simpl in H.
  now apply Bool.eqb_prop in H.
Qed.

(** A purely vertical offset never wraps into a neighbouring row. *)
Lemma noWrap_vertical (windowSize : Z) (len : nat) (dy : Z) :
  Z.of_nat len = windowSize * windowSize ->
  Spec.noWrap windowSize len 0 dy = true.
Proof.
  intros Hlen. unfold Spec.noWrap. apply forallb_forall. intros [i j] Hin.
  apply in_patchPixels in Hin. simpl. unfold Spec.insidePatch.
  rewrite Hlen, Z.add_0_r. apply Bool.eqb_true_iff.
  apply eq_true_iff_eq. rewrite !andb_true_iff, !Z.leb_le, !Z.ltb_lt. nia.
Qed.

(** C1 (as the code behaves).  At every offset whose flat search index does
    not wrap into a neighbouring row (every vertical offset is one), the
    score is the sum, over the pixels whose shifted coordinates stay inside
    the patch, of the mean-centred template sample times the search sample
    minus the template mean, divided by [overlap count * template std]; an
    offset without overlap has no score.  The template mean is subtracted
    from the search samples too. *)
Theorem scoreAt_zero_mean_overlap
    (template search : list float) (windowSize dx dy : Z) :
  Spec.noWrap windowSize (length search) dx dy = true ->
  Advanced.scoreAt template search windowSize dx dy
  = if (0 <? Spec.count (Spec.overlapPixels windowSize dx dy))%float
    then Some (Spec.zeroMeanScore true template search windowSize dx dy)
    else None.
Proof.
  intros Hwrap. unfold Advanced.scoreAt, Spec.zeroMeanScore, Spec.count.
  rewrite accumulate_patchPixels.
  rewrite (fold_left_guard
    (fun (acc : float * float) p =>
       ((fst acc + get (Advanced.templateNorm template)
                     (Z.to_nat (snd p * windowSize + fst p))
                   * (get search (Z.to_nat ((snd p + dy) * windowSize + (fst p + dx)))
                      - Advanced.templateMean template))%float,
        (snd acc + 1)%float))
    (fun p => (0 <=? (snd p + dy) * windowSize + (fst p + dx))
              && ((snd p + dy) * windowSize + (fst p + dx)
                  <? Z.of_nat (length search)))).
  rewrite (noWrap_filter _ _ _ _ Hwrap).
  rewrite (fold_left_pair (fun s p =>
     (s + get (Advanced.templateNorm template) (Z.to_nat (snd p * windowSize + fst p))
          * (get search (Z.to_nat ((snd p + dy) * windowSize + (fst p + dx)))
             - Advanced.templateMean template))%float)).
  reflexivity.
Qed.

Lemma scoreAt_zero_mean_overlap_witness :
  Advanced.scoreAt Sample.stripes Sample.ramp 2 0 1
  = if (0 <? Spec.count (Spec.overlapPixels 2 0 1))%float
    then Some (Spec.zeroMeanScore true Sample.stripes Sample.ramp 2 0 1)
    else None.
Proof.
  apply (scoreAt_zero_mean_overlap Sample.stripes Sample.ramp 2 0 1).
  apply noWrap_vertical. reflexivity.
Defined.

(** C1 as stated fails: with the template [0 0 / 4 4] (mean 2, std 2) and
    the search patch [0 0 / 1 1], the offset (0, 1) scores 1 where the
    specified sum, which leaves the search samples uncentred, gives -1; and
    at the offset (1, 0) the code counts three pixels where only two
    overlap, so that neither reading of the sum gives its score. *)
Lemma scoreAt_not_template_only :
  (Advanced.templateStd Sample.stripes =? 0)%float = false /\
  Advanced.scoreAt Sample.stripes Sample.ramp 2 0 1 = Some 1%float /\
  Spec.zeroMeanScore false Sample.stripes Sample.ramp 2 0 1 = (-1)%float /\
  Advanced.scoreAt Sample.stripes Sample.ramp 2 0 1
    <> Some (Spec.zeroMeanScore false Sample.stripes Sample.ramp 2 0 1) /\
  Spec.overlapPixels 2 1 0 = [(0, 0); (0, 1)] /\
  snd (Advanced.accumulate (Advanced.templateNorm Sample.stripes)
         (Advanced.templateMean Sample.stripes) Sample.ramp 2 1 0) = 3%float /\
  Advanced.scoreAt Sample.stripes Sample.ramp 2 1 0
    <> Some (Spec.zeroMeanScore false Sample.stripes Sample.ramp 2 1 0) /\
  Advanced.scoreAt Sample.stripes Sample.ramp 2 1 0
    <> Some (Spec.zeroMeanScore true Sample.stripes Sample.ramp 2 1 0).
Proof.
  repeat split; try (vm_compute; reflexivity); vm_compute; float_neq.
Qed.



(** The search loops are one scan of [Spec.scan] that keeps the first
    strict maximum. *)
Lemma ncc_scan template search windowSize searchRange :
  (Advanced.templateStd template =? 0)%float = false ->
  Scan.ofMatch
    (Advanced.normalizedCrossCorrelation template search windowSize searchRange)
  = fold_left (Scan.pick (Scan.scoreOf template search windowSize))
      (Spec.scan searchRange) ((0, 0), neg_infinity).
Proof.
  intros Hstd. unfold Advanced.normalizedCrossCorrelation. rewrite Hstd.
  unfold Spec.scan. rewrite fold_left_flat_map.
  change ((0, 0), neg_infinity)
    with (Scan.ofMatch (Advanced.mkMatch 0 0 neg_infinity)).
  apply fold_left_commute. intros best dy.
  rewrite fold_left_map. apply fold_left_commute. intros best' dx.
  unfold Advanced.improve, Scan.pick, Scan.scoreOf, Scan.ofMatch. cbn [fst snd].
  destruct (Advanced.scoreAt _ _ _ dx dy) as [c|]; [|reflexivity].
  now destruct (_ <? c)%float.
Qed.

Lemma ncc_scanned template search windowSize searchRange :
  (Advanced.templateStd template =? 0)%float = false ->
  Scan.scanned (Scan.scoreOf template search windowSize) (0, 0) neg_infinity
    (Spec.scan searchRange)
    (Scan.ofMatch
       (Advanced.normalizedCrossCorrelation template search windowSize searchRange)).
Proof. intros Hstd. rewrite ncc_scan by assumption. apply pick_scanned. Qed.

(** C5 (as the code behaves).  For a textured template, no offset in range
    scores strictly above the returned correlation; and once some score has
    beaten the initial -Infinity, the returned offset is in range, carries
    the returned score, and every other offset that reaches that score comes
    later in the scan (larger [dy], or the same [dy] and larger [dx]): ties
    go to the offset scanned first, not to the one closest to zero. *)
Theorem ncc_first_maximum
    (template search : list float) (windowSize searchRange : Z) :
  (Advanced.templateStd template =? 0)%float = false ->
  let r := Advanced.normalizedCrossCorrelation template search windowSize searchRange in
  (forall dx dy c,
     Spec.inRange searchRange dx dy ->
     Advanced.scoreAt template search windowSize dx dy = Some c ->
     (Advanced.correlation r <? c)%float = false)
  /\
  ((neg_infinity <? Advanced.correlation r)%float = true ->
   Spec.inRange searchRange (Advanced.dx r) (Advanced.dy r) /\
   Advanced.scoreAt template search windowSize (Advanced.dx r) (Advanced.dy r)
     = Some (Advanced.correlation r) /\
   forall dx dy c,
     Spec.inRange searchRange dx dy ->
     Advanced.scoreAt template search windowSize dx dy = Some c ->
     (Advanced.correlation r <=? c)%float = true ->
     (dx, dy) = (Advanced.dx r, Advanced.dy r)
     \/ Spec.scansBefore (Advanced.dx r, Advanced.dy r) (dx, dy)).
Proof.
  intros Hstd r.
  pose proof (ncc_scanned template search windowSize searchRange Hstd) as Hscan.
  fold r in Hscan. unfold Scan.ofMatch, Scan.scoreOf in Hscan.
  destruct Hscan as [[E Hall]|(l1 & l2 & El & Ho & Hm0 & H1 & H2)];
    cbn [fst snd] in *.
  - injection E as Edx Edy Ec. split.
    + intros dx dy c Hin Hc. rewrite Ec.
      apply (Hall (dx, dy)); [now apply in_scan|exact Hc].
    + rewrite Ec. now rewrite ltb_irrefl.
  - split.
    + intros dx dy c Hin%in_scan Hc. rewrite El in Hin.
      apply in_app_or in Hin as [Hin|[E|Hin]].
      * apply leb_false_ltb. apply (H1 (dx, dy)); assumption.
      * injection E as <- <-.
        assert (c = Advanced.correlation r) as -> by congruence. apply ltb_irrefl.
      * apply (H2 (dx, dy)); assumption.
    + intros _. split; [|split].
      * apply in_scan. rewrite El. apply in_or_app. right. now left.
      * exact Ho.
      * intros dx dy c Hin%in_scan Hc Htie. rewrite El in Hin.
        apply in_app_or in Hin as [Hin|Hin].
        -- rewrite (H1 (dx, dy) c Hin Hc) in Htie. discriminate.
        -- eapply scan_split_after; eauto.
Qed.

Lemma ncc_first_maximum_witness :
  let r := Advanced.normalizedCrossCorrelation Sample.stripes Sample.grey 2 1 in
  (forall dx dy c,
     Spec.inRange 1 dx dy ->
     Advanced.scoreAt Sample.stripes Sample.grey 2 dx dy = Some c ->
     (Advanced.correlation r <? c)%float = false)
  /\
  ((neg_infinity <? Advanced.correlation r)%float = true ->
   Spec.inRange 1 (Advanced.dx r) (Advanced.dy r) /\
   Advanced.scoreAt Sample.stripes Sample.grey 2 (Advanced.dx r) (Advanced.dy r)
     = Some (Advanced.correlation r) /\
   forall dx dy c,
     Spec.inRange 1 dx dy ->
     Advanced.scoreAt Sample.stripes Sample.grey 2 dx dy = Some c ->
     (Advanced.correlation r <=? c)%float = true ->
     (dx, dy) = (Advanced.dx r, Advanced.dy r)
     \/ Spec.scansBefore (Advanced.dx r, Advanced.dy r) (dx, dy)).
Proof.
  refine (ncc_first_maximum Sample.stripes Sample.grey 2 1 _).
  vm_compute. reflexivity.
Defined.

(** C5 as stated fails: against a uniform search patch every offset scores
    0; the search returns (-1, -1), the first offset scanned, although
    (0, 0) ties with it and is closer to zero. *)
Lemma ties_not_broken_towards_zero :
  (Advanced.templateStd Sample.stripes =? 0)%float = false /\
  Advanced.normalizedCrossCorrelation Sample.stripes Sample.grey 2 1
  = Advanced.mkMatch (-1) (-1) 0%float /\
  Advanced.scoreAt Sample.stripes Sample.grey 2 0 0 = Some 0%float /\
  ~ Spec.tieBrokenTowardsZero Sample.stripes Sample.grey 2 1.
Proof.
  repeat split; try (vm_compute; reflexivity).
  intros H. unfold Spec.tieBrokenTowardsZero in H.
  assert (E : Advanced.normalizedCrossCorrelation Sample.stripes Sample.grey 2 1
              = Advanced.mkMatch (-1) (-1) 0%float) by (vm_compute; reflexivity).
  rewrite E in H. cbv zeta in H.
  cbn [Advanced.dx Advanced.dy Advanced.correlation] in H.
  assert (P : Spec.prefers (-1, -1) (0, 0)).
  { apply (H 0 0 0%float); [unfold Spec.inRange; lia|vm_compute; reflexivity..]. }
  unfold Spec.prefers in P. cbn in P. lia.
Qed.

(** ** The grid loops of the advanced server *)

Lemma forLoop_skip {S : Type} (fuel : nat) (bound step k : Z)
    (body : Z -> S -> option S) (st : S) :
  bound <= k -> Advanced.forLoop (Datatypes.S fuel) bound step body k st = Some st.
Proof. intros H. simpl. now destruct (Z.ltb_spec k bound); [lia|]. Qed.

(** A loop whose body leaves the state alone returns it, given fuel for
    every iteration, when the step is positive. *)
Lemma forLoop_idle {S : Type} (fuel : nat) (bound step k : Z)
    (body : Z -> S -> option S) (st : S) :
  (forall k st, body k st = Some st) ->
  0 < step -> (Z.to_nat (bound - k) < fuel)%nat ->
  Advanced.forLoop fuel bound step body k st = Some st.
Proof.
  intros Hbody Hstep. revert k. induction fuel as [|fuel IH]; intros k Hfuel; [lia|].
  simpl. destruct (k <? bound) eqn:E; [|reflexivity].
  apply Z.ltb_lt in E. rewrite Hbody. apply IH. lia.
Qed.

(** With a step that is not positive, a loop that is entered never ends. *)
Lemma forLoop_stuck {S : Type} (fuel : nat) (bound step k : Z)
    (body : Z -> S -> option S) (st : S) :
  step <= 0 -> k < bound ->
  Advanced.forLoop fuel bound step body k st = None.
Proof.
  intros Hstep. revert k st.
  induction fuel as [|fuel IH]; intros k st Hk; [reflexivity|].
  simpl. destruct (Z.ltb_spec k bound); [|lia].
  destruct (body k st); [|reflexivity]. apply IH. lia.
Qed.

Lemma forLoop_body_diverges {S : Type} (fuel : nat) (bound step k : Z)
    (body : Z -> S -> option S) (st : S) :
  k < bound -> body k st = None ->
  Advanced.forLoop (Datatypes.S fuel) bound step body k st = None.
Proof.
  intros Hk Hbody. simpl. destruct (Z.ltb_spec k bound); [|lia]. now rewrite Hbody.
Qed.

(** What holds of the state initially and is kept by the body holds of the
    state a loop returns. *)
Lemma forLoop_invariant {S : Type} (P : S -> Prop) (fuel : nat) (bound step : Z)
    (body : Z -> S -> option S) (k : Z) (st st' : S) :
  (forall k st st', P st -> body k st = Some st' -> P st') ->
  P st -> Advanced.forLoop fuel bound step body k st = Some st' -> P st'.
Proof.
  intros Hbody. revert k st. induction fuel as [|fuel IH]; intros k st HP; [discriminate|].
  simpl. destruct (k <? bound); [|now intros [= <-]].
  destruct (body k st) as [st1|] eqn:E; [|discriminate]. eauto.
Qed.

Lemma computePIVField_short_frame image1 image2 config fuel :
  Advanced.height image1 <= Advanced.interrogationWindow config ->
  Advanced.computePIVField image1 image2 config (S fuel) = Some [].
Proof. intros H. unfold Advanced.computePIVField. apply forLoop_skip. lia. Qed.

Lemma computePIVField_narrow_frame image1 image2 config fuel :
  Advanced.width image1 <= Advanced.interrogationWindow config ->
  0 < Advanced.stepSize config ->
  (Z.to_nat (Advanced.height image1 - Advanced.interrogationWindow config) < fuel)%nat ->
  Advanced.computePIVField image1 image2 config fuel = Some [].
Proof.
  intros Hw Hstep Hfuel. unfold Advanced.computePIVField.
  destruct fuel as [|fuel]; [lia|].
  apply forLoop_idle; [|assumption|lia].
  intros y0 vectors. apply forLoop_skip. lia.
Qed.

Lemma processPair_empty image1 image2 config calibration fuel :
  Advanced.computePIVField image1 image2 config fuel = Some [] ->
  Advanced.processPair image1 image2 config calibration fuel
  = Some ([], Advanced.mkStatistics 0 0 0 0 0 0 0 0 None None None).
Proof. intros H. unfold Advanced.processPair. now rewrite H. Qed.

(** C2 (as the code behaves).  When the window is at least as tall as the
    frame, or at least as wide while the step is positive, the pipeline
    returns normally, given fuel for the rows it skips over, with an empty
    vector field and the all-zero statistics block. *)
Theorem degenerate_window_returns_empty image1 image2 config calibration fuel :
  Advanced.height image1 <= Advanced.interrogationWindow config
  \/ (Advanced.width image1 <= Advanced.interrogationWindow config
      /\ 0 < Advanced.stepSize config) ->
  (Z.to_nat (Advanced.height image1 - Advanced.interrogationWindow config) < fuel)%nat ->
  Advanced.processPair image1 image2 config calibration fuel
  = Some ([], Advanced.mkStatistics 0 0 0 0 0 0 0 0 None None None).
Proof.
  intros [Hh|[Hw Hstep]] Hfuel; apply processPair_empty.
  - destruct fuel as [|fuel]; [lia|]. now apply computePIVField_short_frame.
  - now apply computePIVField_narrow_frame.
Qed.

Lemma degenerate_window_returns_empty_witness :
  Advanced.processPair Sample.tiny Sample.tiny Advanced.PIV_CONFIG None 1
  = Some ([], Advanced.mkStatistics 0 0 0 0 0 0 0 0 None None None).
Proof.
  apply (degenerate_window_returns_empty
           Sample.tiny Sample.tiny Advanced.PIV_CONFIG None 1).
  - left. vm_compute. discriminate.
  - vm_compute. lia.
Defined.

(** C2 as stated fails: a 2x2 frame pair under the default 64-pixel window
    is answered with an empty field, not refused. *)
Lemma degenerate_window_not_rejected :
  ~ Spec.rejectsDegenerate Sample.tiny Sample.tiny Advanced.PIV_CONFIG.
Proof.
  intros H.
  assert (E : Advanced.processPair Sample.tiny Sample.tiny Advanced.PIV_CONFIG None 1
              = None).
  { apply H. left. reflexivity. }
  vm_compute in E. discriminate E.
Qed.

Lemma correlateWindow_wholePixel image1 image2 config x0 y0 vectors :
  List.Forall Spec.wholePixel vectors ->
  List.Forall Spec.wholePixel (Advanced.correlateWindow image1 image2 config x0 y0 vectors).
Proof.
  intros H. unfold Advanced.correlateWindow.
  destruct (_ <=? _)%float; [|exact H].
  apply List.Forall_app. split; [exact H|]. constructor; [|constructor].
  eexists _, _. split; reflexivity.
Qed.

Lemma computePIVField_wholePixel image1 image2 config fuel vectors :
  Advanced.computePIVField image1 image2 config fuel = Some vectors ->
  List.Forall Spec.wholePixel vectors.
Proof.
  unfold Advanced.computePIVField.
  apply (forLoop_invariant (List.Forall Spec.wholePixel)); [|constructor].
  intros y0 st st' Hst.
  apply (forLoop_invariant (List.Forall Spec.wholePixel)); [|exact Hst].
  intros x0 st1 st2 Hst1 [= <-]. now apply correlateWindow_wholePixel.
Qed.

(** C8, evaluated on the code.  [computePIVField] never reads the sub-pixel
    flag, and every vector it reports carries an integer offset.  On the
    sample particle pair, with the flag set, the one window reports
    (u, v) = (1, 0) although the scores at dx = 0, 1, 2 are all positive,
    the optimum is inside the search range, and the parabola through the
    three scores peaks strictly to the right of the integer optimum. *)
Theorem subpixel_flag_ignored :
  (forall image1 image2 config b fuel,
     Advanced.computePIVField image1 image2 (Advanced.withSubPixel b config) fuel
     = Advanced.computePIVField image1 image2 config fuel)
  /\
  (forall image1 image2 config fuel vectors w,
     Advanced.computePIVField image1 image2 config fuel = Some vectors ->
     In w vectors -> Spec.wholePixel w)
  /\
  Advanced.subPixelAccuracy Sample.particleConfig = true
  /\
  exists a b c,
    Advanced.scoreAt Sample.windowA Sample.windowB 4 0 0 = Some a /\
    Advanced.scoreAt Sample.windowA Sample.windowB 4 1 0 = Some b /\
    Advanced.scoreAt Sample.windowA Sample.windowB 4 2 0 = Some c /\
    Advanced.computePIVField Sample.particleA Sample.particleB Sample.particleConfig 2
    = Some [Advanced.mkVector 2 2 1 0 b] /\
    (0 <? a)%float = true /\ (0 <? c)%float = true /\
    (0 <? Spec.parabolaVertex a b c)%float = true.
Proof.
  split; [|split; [|split]].
  - intros image1 image2 config b fuel. reflexivity.
  - intros image1 image2 config fuel vectors w Hrun Hin.
    apply computePIVField_wholePixel in Hrun.
    rewrite List.Forall_forall in Hrun. now apply Hrun.
  - reflexivity.
  - eexists _, _, _. repeat split; vm_compute; reflexivity.
Qed.

(** ** Outlier rejection in the advanced server *)

Lemma sort_cons x l : sort (x :: l) = insertSorted x (sort l).
Proof. reflexivity. Qed.

(** Sorting a list that holds one value [hi] among copies of [lo]. *)
Section TwoValues.
Variables lo hi : float.
Hypothesis lo_lo : (lo - lo <=? 0)%float = true.
Hypothesis lo_hi : (lo - hi <=? 0)%float = true.
Hypothesis hi_lo : (hi - lo <=? 0)%float = false.

Lemma insertSorted_lo n :
  insertSorted lo (replicate n lo ++ [hi]) = replicate (S n) lo ++ [hi].
Proof. destruct n; simpl; now rewrite ?lo_hi, ?lo_lo. Qed.

Lemma insertSorted_lo_only n :
  insertSorted lo (replicate n lo) = replicate (S n) lo.
Proof. destruct n; simpl; now rewrite ?lo_lo. Qed.

Lemma insertSorted_hi n :
  insertSorted hi (replicate n lo) = replicate n lo ++ [hi].
Proof. induction n as [|n IH]; simpl; [reflexivity|]. now rewrite hi_lo, IH. Qed.

Lemma sort_lo_only n : sort (replicate n lo) = replicate n lo.
Proof.
  induction n as [|n IH]; [reflexivity|].
  cbn [replicate]. now rewrite sort_cons, IH, insertSorted_lo_only.
Qed.

Lemma sort_one_hi a b :
  sort (replicate a lo ++ hi :: replicate b lo) = replicate (a + b) lo ++ [hi].
Proof.
  induction a as [|a IH]; cbn [replicate app Nat.add]; rewrite sort_cons.
  - now rewrite sort_lo_only, insertSorted_hi.
  - now rewrite IH, insertSorted_lo.
Qed.

Lemma middle_one_hi a b :
  (2 <= a + b)%nat ->
  Advanced.middle (sort (replicate a lo ++ hi :: replicate b lo)) = lo.
Proof.
  intros Hn. rewrite sort_one_hi. unfold Advanced.middle, get.
  rewrite length_app, length_replicate. cbn [length].
  assert (Hlt : ((a + b + 1) / 2 < a + b)%nat).
  { apply Nat.Div0.div_lt_upper_bound. lia. }
  rewrite lookup_app_l by (now rewrite length_replicate).
  now rewrite lookup_replicate_2.
Qed.

End TwoValues.

Lemma magnitude_field a b :
  map Advanced.magnitude (Sample.fieldWithOutlier a b)
  = replicate a 1%float ++ 10%float :: replicate b 1%float.
Proof.
  unfold Sample.fieldWithOutlier. rewrite map_app. cbn [map].
  now rewrite !map_replicate.
Qed.

Lemma removeOutliers_field a b :
  (2 <= a + b)%nat ->
  Advanced.removeOutliers (Sample.fieldWithOutlier a b) 3
  = replicate (a + b) (Sample.flow 1 0).
Proof.
  intros Hn. unfold Advanced.removeOutliers.
  destruct (Sample.fieldWithOutlier a b) as [|w ws] eqn:E.
  { destruct a; discriminate E. }
  rewrite <- E. clear E w ws.
  rewrite magnitude_field.
  rewrite (middle_one_hi 1 10) by (auto; vm_compute; reflexivity).
  rewrite map_app. cbn [map]. rewrite !map_replicate.
  change (abs (1 - 1)) with 0%float. change (abs (10 - 1)) with 9%float.
  rewrite (middle_one_hi 0 9) by (auto; vm_compute; reflexivity).
  unfold Sample.fieldWithOutlier. rewrite List.filter_app. cbn [List.filter].
  change (abs (Advanced.magnitude (Sample.flow 10 0) - 1) <=? 3 * 0)%float with false.
  cbn iota.
  assert (Hkeep : forall n,
    List.filter (fun w => (abs (Advanced.magnitude w - 1) <=? 3 * 0)%float)
      (replicate n (Sample.flow 1 0))
    = replicate n (Sample.flow 1 0)).
  { induction n as [|n IH]; [reflexivity|]. cbn [replicate List.filter].
    change (abs (Advanced.magnitude (Sample.flow 1 0) - 1) <=? 3 * 0)%float with true.
    cbn iota. now rewrite IH. }
  rewrite !Hkeep. now rewrite replicate_add.
Qed.

(** C3 (as the code behaves).  [removeOutliers] returns exactly the vectors
    of its input whose distance to the median magnitude is at most
    [threshold * MAD], median and MAD being the elements at index
    [floor(n / 2)] of the sorted lists; the others are removed from the
    field, not flagged.  In a field of at least three vectors, all (1, 0)
    except one outlier (10, 0) anywhere, the result is the field without
    the outlier. *)
Theorem removeOutliers_drops_rejected :
  (forall vectors threshold w,
     In w (Advanced.removeOutliers vectors threshold)
     <-> In w vectors /\
         (abs (Advanced.magnitude w - Spec.medianMagnitude vectors)
          <=? threshold * Spec.madMagnitude vectors)%float = true)
  /\
  (forall a b, (2 <= a + b)%nat ->
     Advanced.removeOutliers (Sample.fieldWithOutlier a b) 3
     = replicate (a + b) (Sample.flow 1 0)).
Proof.
  split; [|exact removeOutliers_field].
  intros vectors threshold w. unfold Advanced.removeOutliers.
  destruct vectors as [|w0 ws] eqn:E; [simpl; tauto|].
  rewrite <- E. apply filter_In.
Qed.

(** C3 as stated fails: the outlier of a three-vector field is missing from
    the result, and in a two-vector field, where the median is the larger
    magnitude, nothing is rejected at all. *)
Lemma rejected_vectors_not_kept :
  Advanced.removeOutliers (Sample.fieldWithOutlier 1 1) 3
  = [Sample.flow 1 0; Sample.flow 1 0] /\
  ~ Spec.keepsEveryVector (Sample.fieldWithOutlier 1 1) 3 /\
  Advanced.removeOutliers (Sample.fieldWithOutlier 0 1) 3
  = [Sample.flow 10 0; Sample.flow 1 0].
Proof.
  split; [vm_compute; reflexivity|]. split; [|vm_compute; reflexivity].
  intros H. specialize (H (Sample.flow 10 0)).
  assert (Hin : In (Sample.flow 10 0)
                  (Advanced.removeOutliers (Sample.fieldWithOutlier 1 1) 3)).
  { apply H. right. now left. }
  rewrite (removeOutliers_field 1 1) in Hin by lia.
  cbn in Hin. destruct Hin as [E|[E|[]]];
    apply (f_equal Advanced.u) in E; cbn in E; revert E; float_neq.
Qed.

(** ** Statistics and calibration *)

Lemma positive_truthy (c : float) : (0 <? c)%float = true -> Advanced.truthy c = true.
Proof.
  intros H. unfold Advanced.truthy.
  rewrite (ltb_not_eqb _ _ H). now destruct (ltb_not_nan _ _ H) as [-> _].
Qed.

Lemma processImagePair_statistics p oX oY vX vY calibration :
  let s := Basic.statistics (Basic.processImagePair p oX oY vX vY calibration) in
  let valid := List.filter (fun v => negb (isNaN v))
                 (Basic.vectorsX (Basic.processImagePair p oX oY vX vY calibration)) in
  Basic.validVectors s = length valid /\
  Basic.maxVelocity s = max (map abs valid) /\
  Basic.avgVelocity s = (sum valid / N2F (length valid))%float /\
  Basic.pixelsPerMM s
  = match calibration with
    | Some c => if Basic.truthy c then c else 1%float
    | None => 1%float
    end /\
  Basic.maxVelocityMM s = (Basic.maxVelocity s / Basic.pixelsPerMM s)%float /\
  Basic.avgVelocityMM s = (Basic.avgVelocity s / Basic.pixelsPerMM s)%float.
Proof.
  unfold Basic.processImagePair.
  destruct (Basic.localMedianFilter _ _ _ _ _) as [FX FY]. cbn. auto 10.
Qed.

(** C9 (as the code behaves).  In the advanced server a non-empty field and
    a positive calibration [c] give [maxVelocityMM = maxVelocity / c] and
    [avgVelocityMM = avgVelocity / c]; without a calibration, and for an
    empty field whatever calibration is supplied, the three calibration
    keys are absent.  In the first server the two figures are
    always the pixel figures divided by [pixelsPerMM], which is the supplied
    positive calibration, or 1 when none is supplied. *)
Theorem calibration_conversion :
  (forall w vectors c, (0 <? c)%float = true ->
     let s := Advanced.calculateStatistics (w :: vectors) (Some c) in
     Advanced.pixelsPerMM s = Some c /\
     Advanced.maxVelocityMM s = Some (Advanced.maxVelocity s / c)%float /\
     Advanced.avgVelocityMM s = Some (Advanced.avgVelocity s / c)%float)
  /\
  (forall vectors,
     let s := Advanced.calculateStatistics vectors None in
     Advanced.pixelsPerMM s = None /\
     Advanced.maxVelocityMM s = None /\ Advanced.avgVelocityMM s = None)
  /\
  (forall calibration,
     let s := Advanced.calculateStatistics [] calibration in
     Advanced.pixelsPerMM s = None /\
     Advanced.maxVelocityMM s = None /\ Advanced.avgVelocityMM s = None)
  /\
  (forall p oX oY vX vY calibration,
     let s := Basic.statistics (Basic.processImagePair p oX oY vX vY calibration) in
     Basic.maxVelocityMM s = (Basic.maxVelocity s / Basic.pixelsPerMM s)%float /\
     Basic.avgVelocityMM s = (Basic.avgVelocity s / Basic.pixelsPerMM s)%float /\
     (calibration = None -> Basic.pixelsPerMM s = 1%float) /\
     (forall c, calibration = Some c -> (0 <? c)%float = true ->
                Basic.pixelsPerMM s = c)).
Proof.
  split; [|split; [|split]].
  - intros w vectors c Hc s. subst s. unfold Advanced.calculateStatistics.
    rewrite (positive_truthy c Hc). cbn. auto.
  - intros [|w vectors]; cbn; auto.
  - intros calibration. cbn. auto.
  - intros p oX oY vX vY calibration s.
    destruct (processImagePair_statistics p oX oY vX vY calibration)
      as (_ & _ & _ & Hppm & Hmax & Havg).
    fold s in Hppm, Hmax, Havg. repeat split; auto.
    + intros ->. exact Hppm.
    + intros c -> Hc. rewrite Hppm.
      change (Basic.truthy c) with (Advanced.truthy c).
      now rewrite (positive_truthy c Hc).
Qed.

(** C9 as stated fails: an empty field with calibration 2 has no physical
    figures at all, and the first server, given no calibration, reports
    [pixelsPerMM = 1] and a physical maximum equal to the pixel one. *)
Lemma calibration_not_as_specified :
  ~ Spec.convertsWhenCalibrated [] 2 /\
  Advanced.maxVelocityMM (Advanced.calculateStatistics [] (Some 2%float)) = None /\
  Basic.pixelsPerMM
    (Basic.statistics
       (Basic.processImagePair Basic.PIV_PARAMS Sample.centresX Sample.centresY
          [1; 2]%float [0; 1]%float None)) = 1%float /\
  Basic.maxVelocityMM
    (Basic.statistics
       (Basic.processImagePair Basic.PIV_PARAMS Sample.centresX Sample.centresY
          [1; 2]%float [0; 1]%float None)) = 2%float.
Proof.
  split; [|repeat split; vm_compute; reflexivity].
  intros [H _]. cbn in H. discriminate H.
Qed.

(** C6, evaluated on the code.  The advanced server answers an empty field
    with the all-zero block.  The first server has no such guard: whenever
    no X component survives the filter, its block carries a maximum of
    -Infinity and a NaN average, also in physical units. *)
Theorem no_valid_vector_statistics p oX oY vX vY calibration :
  Basic.validVectors
    (Basic.statistics (Basic.processImagePair p oX oY vX vY calibration)) = 0%nat ->
  let s := Basic.statistics (Basic.processImagePair p oX oY vX vY calibration) in
  Basic.maxVelocity s = neg_infinity /\
  Basic.avgVelocity s = nan /\
  Basic.maxVelocityMM s = (neg_infinity / Basic.pixelsPerMM s)%float /\
  Basic.avgVelocityMM s = (nan / Basic.pixelsPerMM s)%float /\
  forall c, Advanced.calculateStatistics [] c
            = Advanced.mkStatistics 0 0 0 0 0 0 0 0 None None None.
Proof.
  intros Hvalid s.
  destruct (processImagePair_statistics p oX oY vX vY calibration)
    as (Hn & Hmax & Havg & _ & HmaxMM & HavgMM).
  fold s in Hn, Hmax, Havg, HmaxMM, HavgMM, Hvalid.
  rewrite Hvalid in Hn. symmetry in Hn. apply length_zero_iff_nil in Hn.
  rewrite Hn in Hmax, Havg. cbn in Hmax, Havg.
  rewrite HmaxMM, HavgMM, Hmax, Havg. auto.
Qed.

Lemma no_valid_vector_statistics_witness :
  let s := Basic.statistics
             (Basic.processImagePair Basic.PIV_PARAMS Sample.centresX Sample.centresY
                Sample.uniformX Sample.uniformY None) in
  Basic.maxVelocity s = neg_infinity /\
  Basic.avgVelocity s = nan /\
  Basic.maxVelocityMM s = (neg_infinity / Basic.pixelsPerMM s)%float /\
  Basic.avgVelocityMM s = (nan / Basic.pixelsPerMM s)%float /\
  forall c, Advanced.calculateStatistics [] c
            = Advanced.mkStatistics 0 0 0 0 0 0 0 0 None None None.
Proof.
  refine (no_valid_vector_statistics Basic.PIV_PARAMS Sample.centresX Sample.centresY
            Sample.uniformX Sample.uniformY None _).
  vm_compute. reflexivity.
Defined.

(** ** The search of the first server *)

Lemma searchLoop_scan template search width height :
  Scan.ofBest (Basic.searchLoop template search width height)
  = fold_left (Scan.pick (Scan.shiftScore template search width height))
      (Spec.scan Basic.searchRange) ((0, 0), (-1)%float).
Proof.
  unfold Basic.searchLoop, Spec.scan. rewrite fold_left_flat_map.
  change ((0, 0), (-1)%float) with (Scan.ofBest (Basic.mkBest 0 0 (-1)%float)).
  apply fold_left_commute. intros best dy.
  rewrite fold_left_map. apply fold_left_commute. intros best' dx.
  unfold Basic.improve, Scan.pick, Scan.shiftScore, Scan.ofBest. cbn [fst snd].
  now destruct (_ <? _)%float.
Qed.

(** Nothing within the search range scores strictly above the loop's
    result, and a result above the initial -1 is the score at the offset
    the loop ends with. *)
Lemma searchLoop_maximum template search width height :
  (forall dx dy,
     Spec.inRange Basic.searchRange dx dy ->
     (Basic.maxCorr (Basic.searchLoop template search width height)
      <? Basic.scoreAt template search width height dx dy)%float = false)
  /\
  (((-1) <? Basic.maxCorr (Basic.searchLoop template search width height))%float
   = true ->
   Spec.inRange Basic.searchRange
     (Basic.bestX (Basic.searchLoop template search width height))
     (Basic.bestY (Basic.searchLoop template search width height)) /\
   Basic.scoreAt template search width height
     (Basic.bestX (Basic.searchLoop template search width height))
     (Basic.bestY (Basic.searchLoop template search width height))
   = Basic.maxCorr (Basic.searchLoop template search width height)).
Proof.
  pose proof (pick_scanned (Scan.shiftScore template search width height)
                (0, 0) (-1)%float (Spec.scan Basic.searchRange)) as Hscan.
  rewrite <- searchLoop_scan in Hscan.
  revert Hscan. generalize (Basic.searchLoop template search width height) as best.
  generalize Basic.searchRange as r. intros r best Hscan.
  destruct Hscan as [[E Hall]|(l1 & l2 & El & Ho & Hm0 & H1 & H2)];
    unfold Scan.ofBest, Scan.shiftScore in *; cbn [fst snd] in *.
  - injection E as Edx Edy Ec. rewrite Ec. split.
    + intros dx dy Hin. apply (Hall (dx, dy)); [now apply in_scan|reflexivity].
    + now rewrite ltb_irrefl.
  - injection Ho as Ho. split.
    + intros dx dy Hin%in_scan. rewrite El in Hin.
      apply in_app_or in Hin as [Hin|[E|Hin]].
      * apply leb_false_ltb. apply (H1 (dx, dy)); [assumption|reflexivity].
      * injection E as <- <-. rewrite Ho. apply ltb_irrefl.
      * apply (H2 (dx, dy)); [assumption|reflexivity].
    + intros _. split; [|exact Ho].
      apply in_scan. rewrite El. apply in_or_app. right. now left.
Qed.

(** The score of the first server is the correlation sum divided by the
    size of the overlap. *)
Lemma scoreAt_sum_count template search width height dx dy :
  Basic.scoreAt template search width height dx dy
  = (Spec.correlationSum template search width height dx dy
     / Spec.overlapCount width height dx dy)%float.
Proof.
  unfold Basic.scoreAt, Spec.correlationSum, Spec.overlapCount.
  match goal with |- (let '(c, n) := ?e in _) = _ => destruct e as [c n] eqn:E end.
  apply (f_equal fst) in E as E1. apply (f_equal snd) in E as E2. clear E.
  cbn [fst snd] in E1, E2. rewrite <- E1, <- E2. f_equal.
  - change 0%float with (fst (0%float, 0%float)) at 2.
    apply fold_left_commute. intros a y. apply fold_left_commute. intros b x.
    cbv zeta. now destruct (_ && _).
  - change 0%float with (snd (0%float, 0%float)) at 3.
    apply fold_left_commute. intros a y. apply fold_left_commute. intros b x.
    cbv zeta. now destruct (_ && _).
Qed.

(** C10 (as the code behaves).  The score [phaseCorrelate] compares is the
    correlation sum divided by the number of overlapping pixels.  It
    returns the horizontal offset its search ends with as it is and the
    vertical one negated; that offset maximises the score over the search
    range (once any score exceeds the initial -1).
    [normalizedCrossCorrelation] returns both components of its maximising
    offset as they are.  On the same patch pair, a spot that moves one row
    down, the advanced server answers dy = 1 and the first server
    y = -1. *)
Theorem vertical_sign_conventions :
  (forall template search width height,
     (forall dx dy,
        Basic.scoreAt template search width height dx dy
        = (Spec.correlationSum template search width height dx dy
           / Spec.overlapCount width height dx dy)%float) /\
     Basic.x (Basic.phaseCorrelate template search width height)
     = Z2F (Basic.bestX (Basic.searchLoop template search width height)) /\
     Basic.y (Basic.phaseCorrelate template search width height)
     = (- Z2F (Basic.bestY (Basic.searchLoop template search width height)))%float /\
     Basic.correlation (Basic.phaseCorrelate template search width height)
     = Basic.maxCorr (Basic.searchLoop template search width height) /\
     (forall dx dy,
        Spec.inRange Basic.searchRange dx dy ->
        (Basic.maxCorr (Basic.searchLoop template search width height)
         <? Basic.scoreAt template search width height dx dy)%float = false) /\
     (((-1) <? Basic.maxCorr (Basic.searchLoop template search width height))%float
      = true ->
      Spec.inRange Basic.searchRange
        (Basic.bestX (Basic.searchLoop template search width height))
        (Basic.bestY (Basic.searchLoop template search width height)) /\
      Basic.scoreAt template search width height
        (Basic.bestX (Basic.searchLoop template search width height))
        (Basic.bestY (Basic.searchLoop template search width height))
      = Basic.maxCorr (Basic.searchLoop template search width height)))
  /\
  (forall template search windowSize searchRange,
     (Advanced.templateStd template =? 0)%float = false ->
     let r := Advanced.normalizedCrossCorrelation template search windowSize
                searchRange in
     (forall dx dy c,
        Spec.inRange searchRange dx dy ->
        Advanced.scoreAt template search windowSize dx dy = Some c ->
        (Advanced.correlation r <? c)%float = false) /\
     ((neg_infinity <? Advanced.correlation r)%float = true ->
      Advanced.scoreAt template search windowSize (Advanced.dx r) (Advanced.dy r)
      = Some (Advanced.correlation r)))
  /\
  Advanced.dy (Advanced.normalizedCrossCorrelation Sample.spot Sample.spotBelow 3 2) = 1
  /\
  Basic.y (Basic.phaseCorrelate Sample.spot Sample.spotBelow 3 3) = (-1)%float.
Proof.
  split; [|split; [|split; vm_compute; reflexivity]].
  - intros template search width height.
    split; [intros dx dy; apply scoreAt_sum_count|].
    destruct (searchLoop_maximum template search width height) as [Hmax Hbest].
    repeat split; auto; now apply Hbest.
  - intros template search windowSize searchRange Hstd r.
    pose proof (ncc_scanned template search windowSize searchRange Hstd) as Hscan.
    fold r in Hscan. unfold Scan.ofMatch, Scan.scoreOf in Hscan.
    destruct Hscan as [[E Hall]|(l1 & l2 & El & Ho & Hm0 & H1 & H2)];
      cbn [fst snd] in *.
    + injection E as Edx Edy Ec. rewrite Ec. split.
      * intros dx dy c Hin Hc. apply (Hall (dx, dy)); [now apply in_scan|exact Hc].
      * now rewrite ltb_irrefl.
    + split; [|auto].
      intros dx dy c Hin%in_scan Hc. rewrite El in Hin.
      apply in_app_or in Hin as [Hin|[E|Hin]].
      * apply leb_false_ltb. apply (H1 (dx, dy)); assumption.
      * injection E as <- <-.
        assert (c = Advanced.correlation r) as -> by congruence. apply ltb_irrefl.
      * apply (H2 (dx, dy)); assumption.
Qed.

(** C10 as stated fails.  Between two copies of a patch with a bump in the
    middle, the sum of products is largest at the offset (0, 0), where it
    is 12 over 9 pixels; the score, 1.5, is largest at (-1, -1), where the
    sum is 6 over 4 pixels, and [phaseCorrelate] returns (-1, 1). *)
Lemma sum_maximum_not_negated :
  ~ Spec.negatesSumMaximum Sample.bump Sample.bump 3 3 /\
  Basic.phaseCorrelate Sample.bump Sample.bump 3 3
  = Basic.mkShift (-1) 1 0x1.8p+0 /\
  Spec.correlationSum Sample.bump Sample.bump 3 3 0 0 = 12%float /\
  Spec.correlationSum Sample.bump Sample.bump 3 3 (-1) (-1) = 6%float.
Proof.
  split; [|repeat split; vm_compute; reflexivity].
  intros (dx & dy & Hin%in_scan & Hmax & Hx & Hy).
  specialize (Hmax 0 0 ltac:(vm_compute; split; split; discriminate)).
  assert (Hall : forallb (fun o =>
            negb ((Z2F (fst o) =? -1)%float && (- Z2F (snd o) =? 1)%float
                  && (Spec.correlationSum Sample.bump Sample.bump 3 3 0 0
                      <=? Spec.correlationSum Sample.bump Sample.bump 3 3
                            (fst o) (snd o))%float))
            (Spec.scan Basic.searchRange) = true) by (vm_compute; reflexivity).
  rewrite forallb_forall in Hall. specialize (Hall _ Hin). cbn [fst snd] in Hall.
  rewrite Hmax, <- Hx, <- Hy in Hall. revert Hall. clear.
  vm_compute. discriminate.
Qed.

(** ** The interpolation loop of the first server *)

Section LocalMedian.
Variable p : Basic.Params.
Variables originsX originsY : list float.

Lemma repair_length st i :
  length (fst (Basic.repair p originsX originsY st i)) = length (fst st) /\
  length (snd (Basic.repair p originsX originsY st i)) = length (snd st).
Proof.
  destruct st as [fX fY]. unfold Basic.repair.
  destruct (isNaN (get fX i) || isNaN (get fY i)); [|auto].
  destruct (Basic.neighbors _ _ _ _ _ _); [auto|].
  cbn [fst snd]. now rewrite !length_insert.
Qed.

(** An iteration writes index [i] only. *)
Lemma repair_other st i j :
  j <> i ->
  fst (Basic.repair p originsX originsY st i) !! j = fst st !! j /\
  snd (Basic.repair p originsX originsY st i) !! j = snd st !! j.
Proof.
  intros Hj. destruct st as [fX fY]. unfold Basic.repair.
  destruct (isNaN (get fX i) || isNaN (get fY i)); [|auto].
  destruct (Basic.neighbors _ _ _ _ _ _); [auto|].
  cbn [fst snd]. now rewrite !list_lookup_insert_ne by auto.
Qed.

Lemma fold_repair_other st (l : list nat) j :
  ~ In j l ->
  fst (fold_left (Basic.repair p originsX originsY) l st) !! j = fst st !! j /\
  snd (fold_left (Basic.repair p originsX originsY) l st) !! j = snd st !! j.
Proof.
  revert st. induction l as [|i l IH]; intros st Hj; [auto|].
  cbn [fold_left].
  destruct (IH (Basic.repair p originsX originsY st i)) as [E1 E2];
    [intros ?; apply Hj; now right|].
  destruct (repair_other st i j) as [E3 E4]; [intros ->; apply Hj; now left|].
  split; congruence.
Qed.

Lemma after_length fX fY i :
  length (fst (Scan.after p originsX originsY fX fY i)) = length fX /\
  length (snd (Scan.after p originsX originsY fX fY i)) = length fY.
Proof.
  unfold Scan.after. induction i as [|i IH]; [auto|].
  rewrite seq_S, fold_left_app. cbn [fold_left Nat.add].
  destruct (repair_length
              (fold_left (Basic.repair p originsX originsY) (seq 0 i) (fX, fY)) i).
  lia.
Qed.

(** Before iteration [i], the entries from [i] on are still the marks. *)
Lemma after_untouched fX fY i j :
  (i <= j)%nat ->
  fst (Scan.after p originsX originsY fX fY i) !! j = fX !! j /\
  snd (Scan.after p originsX originsY fX fY i) !! j = fY !! j.
Proof.
  intros Hj. apply (fold_repair_other (fX, fY)). rewrite in_seq. lia.
Qed.

(** After iteration [i], entry [i] is final. *)
Lemma after_final fX fY i n :
  (i < n)%nat ->
  fst (Scan.after p originsX originsY fX fY n) !! i
  = fst (Scan.after p originsX originsY fX fY (S i)) !! i /\
  snd (Scan.after p originsX originsY fX fY n) !! i
  = snd (Scan.after p originsX originsY fX fY (S i)) !! i.
Proof.
  intros Hi. unfold Scan.after.
  replace n with (S i + (n - S i))%nat by lia.
  rewrite seq_app, fold_left_app.
  apply fold_repair_other. rewrite in_seq. lia.
Qed.

Lemma after_S fX fY i :
  Scan.after p originsX originsY fX fY (S i)
  = Basic.repair p originsX originsY (Scan.after p originsX originsY fX fY i) i.
Proof. unfold Scan.after. now rewrite seq_S, fold_left_app. Qed.

Lemma after_seen fX fY i n :
  (i <= n)%nat -> length fX = n -> length fY = n ->
  Scan.after p originsX originsY fX fY i
  = (Spec.seenAt (fst (Scan.after p originsX originsY fX fY n)) fX i,
     Spec.seenAt (snd (Scan.after p originsX originsY fX fY n)) fY i).
Proof.
  intros Hi HX HY.
  destruct (after_length fX fY i) as [L1 L2].
  destruct (after_length fX fY n) as [L3 L4].
  rewrite (surjective_pairing (Scan.after p originsX originsY fX fY i)).
  f_equal; apply list_eq; intros j; unfold Spec.seenAt.
  - destruct (Nat.lt_ge_cases j i) as [Hj|Hj].
    + rewrite lookup_app_l by (rewrite length_take; lia).
      rewrite lookup_take_lt by assumption.
      destruct (after_final fX fY j n) as [-> _]; [lia|].
      destruct (after_final fX fY j i) as [-> _]; [lia|]. reflexivity.
    + rewrite lookup_app_r by (rewrite length_take; lia).
      rewrite length_take, lookup_drop.
      destruct (after_untouched fX fY i j) as [-> _]; [lia|].
      f_equal. lia.
  - destruct (Nat.lt_ge_cases j i) as [Hj|Hj].
    + rewrite lookup_app_l by (rewrite length_take; lia).
      rewrite lookup_take_lt by assumption.
      destruct (after_final fX fY j n) as [_ ->]; [lia|].
      destruct (after_final fX fY j i) as [_ ->]; [lia|]. reflexivity.
    + rewrite lookup_app_r by (rewrite length_take; lia).
      rewrite length_take, lookup_drop.
      destruct (after_untouched fX fY i j) as [_ ->]; [lia|].
      f_equal. lia.
Qed.

End LocalMedian.

Lemma get_lookup (a b : list float) i : a !! i = b !! i -> get a i = get b i.
Proof. unfold get. now intros ->. Qed.

Lemma localMedianFilter_after p oX oY fX fY :
  Basic.localMedianFilter p oX oY fX fY = Scan.after p oX oY fX fY (length oX).
Proof. reflexivity. Qed.

Lemma localMedianFilter_length p oX oY fX fY :
  length (fst (Basic.localMedianFilter p oX oY fX fY)) = length fX /\
  length (snd (Basic.localMedianFilter p oX oY fX fY)) = length fY.
Proof. rewrite localMedianFilter_after. apply after_length. Qed.

(** What the interpolation loop leaves at each index. *)
Lemma localMedianFilter_entry p oX oY fX fY i :
  length fX = length oX -> length fY = length oX -> (i < length oX)%nat ->
  let FX := fst (Basic.localMedianFilter p oX oY fX fY) in
  let FY := snd (Basic.localMedianFilter p oX oY fX fY) in
  let sX := Spec.seenAt FX fX i in
  let sY := Spec.seenAt FY fY i in
  if isNaN (get fX i) || isNaN (get fY i) then
    match Basic.neighbors p oX oY sX sY i with
    | [] => get FX i = get fX i /\ get FY i = get fY i
    | nb => get FX i = Basic.medianOf (map (get sX) nb) /\
            get FY i = Basic.medianOf (map (get sY) nb)
    end
  else get FX i = get fX i /\ get FY i = get fY i.
Proof.
  intros HX HY Hi. cbv zeta. rewrite localMedianFilter_after.
  set (n := length oX) in *.
  set (sX := Spec.seenAt (fst (Scan.after p oX oY fX fY n)) fX i).
  set (sY := Spec.seenAt (snd (Scan.after p oX oY fX fY n)) fY i).
  pose proof (after_seen p oX oY fX fY i n ltac:(lia) HX HY) as Eseen.
  fold sX sY in Eseen.
  destruct (after_final p oX oY fX fY i n Hi) as [EX EY].
  rewrite after_S, Eseen in EX, EY.
  destruct (after_untouched p oX oY fX fY i i (Nat.le_refl i)) as [UX UY].
  rewrite Eseen in UX, UY. cbn [fst snd] in UX, UY.
  apply get_lookup in UX, UY.
  assert (LX : (i < length sX)%nat).
  { destruct (after_length p oX oY fX fY i) as [L _].
    rewrite Eseen in L. cbn [fst snd] in L. lia. }
  assert (LY : (i < length sY)%nat).
  { destruct (after_length p oX oY fX fY i) as [_ L].
    rewrite Eseen in L. cbn [fst snd] in L. lia. }
  apply get_lookup in EX, EY. rewrite EX, EY. clear EX EY.
  unfold Basic.repair. rewrite UX, UY.
  destruct (isNaN (get fX i) || isNaN (get fY i)); [|cbn [fst snd]; auto].
  destruct (Basic.neighbors p oX oY sX sY i) as [|j nb]; [cbn [fst snd]; auto|].
  cbn [fst snd].
  split; unfold get at 1; rewrite list_lookup_insert_eq by assumption; reflexivity.
Qed.

Lemma processImagePair_vectors p oX oY vX vY calibration :
  Basic.vectorsX (Basic.processImagePair p oX oY vX vY calibration)
  = fst (Basic.localMedianFilter p oX oY (Spec.marks p vX) (Spec.marks p vY)) /\
  Basic.vectorsY (Basic.processImagePair p oX oY vX vY calibration)
  = snd (Basic.localMedianFilter p oX oY (Spec.marks p vX) (Spec.marks p vY)).
Proof.
  unfold Basic.processImagePair, Spec.marks.
  destruct (Basic.localMedianFilter _ _ _ _ _) as [FX FY]. cbn. auto.
Qed.

Lemma marks_length p a : length (Spec.marks p a) = length a.
Proof. unfold Spec.marks. apply length_map. Qed.

(** A mark that is not NaN is the value itself. *)
Lemma marks_kept p a i :
  (i < length a)%nat -> isNaN (get (Spec.marks p a) i) = false ->
  get (Spec.marks p a) i = get a i.
Proof.
  intros Hi. unfold Spec.marks, get.
  change (map ?f a) with (f <$> a). rewrite list_lookup_fmap.
  destruct (a !! i) as [v|] eqn:E; [|apply lookup_ge_None in E; lia].
  cbn [fmap option_fmap option_map default]. unfold Basic.mark.
  destruct (_ <? _)%float; [reflexivity|].
  vm_compute. discriminate.
Qed.

(** C7 (as the code behaves).  Vectors are visited in index order.  A vector
    with both marks clean keeps its values.  A suspect vector takes, per
    axis, the element [floor(k / 2)] of the sorted values of its [k]
    neighbours: the vectors within one grid step in both axes whose two
    components are not NaN at that moment, which are the non-suspect ones
    and the suspect ones of smaller index that were already replaced.
    A suspect vector without such a neighbour keeps its marks: NaN in each
    suspect component. *)
Theorem local_replacement p oX oY vX vY calibration i :
  length vX = length oX -> length vY = length oX -> (i < length oX)%nat ->
  let r := Basic.processImagePair p oX oY vX vY calibration in
  let sX := Spec.seenAt (Basic.vectorsX r) (Spec.marks p vX) i in
  let sY := Spec.seenAt (Basic.vectorsY r) (Spec.marks p vY) i in
  if Spec.suspect p vX vY i then
    match Basic.neighbors p oX oY sX sY i with
    | [] => get (Basic.vectorsX r) i = get (Spec.marks p vX) i /\
            get (Basic.vectorsY r) i = get (Spec.marks p vY) i
    | nb => get (Basic.vectorsX r) i = Basic.medianOf (map (get sX) nb) /\
            get (Basic.vectorsY r) i = Basic.medianOf (map (get sY) nb)
    end
  else get (Basic.vectorsX r) i = get vX i /\ get (Basic.vectorsY r) i = get vY i.
Proof.
  intros HX HY Hi. cbv zeta.
  destruct (processImagePair_vectors p oX oY vX vY calibration) as [-> ->].
  pose proof (localMedianFilter_entry p oX oY (Spec.marks p vX) (Spec.marks p vY) i)
    as H.
  rewrite !marks_length in H. specialize (H HX HY Hi). cbv zeta in H.
  unfold Spec.suspect.
  destruct (isNaN (get (Spec.marks p vX) i)) eqn:EX;
    [exact H|destruct (isNaN (get (Spec.marks p vY) i)) eqn:EY; [exact H|]].
  cbn [orb] in H |- *. destruct H as [-> ->].
  split; apply marks_kept; auto; lia.
Qed.

Lemma local_replacement_witness :
  let r := Basic.processImagePair Basic.PIV_PARAMS Sample.rowX Sample.rowY
             Sample.chainX Sample.chainY None in
  let sX := Spec.seenAt (Basic.vectorsX r) (Spec.marks Basic.PIV_PARAMS Sample.chainX) 11 in
  let sY := Spec.seenAt (Basic.vectorsY r) (Spec.marks Basic.PIV_PARAMS Sample.chainY) 11 in
  if Spec.suspect Basic.PIV_PARAMS Sample.chainX Sample.chainY 11 then
    match Basic.neighbors Basic.PIV_PARAMS Sample.rowX Sample.rowY sX sY 11 with
    | [] => get (Basic.vectorsX r) 11
            = get (Spec.marks Basic.PIV_PARAMS Sample.chainX) 11 /\
            get (Basic.vectorsY r) 11
            = get (Spec.marks Basic.PIV_PARAMS Sample.chainY) 11
    | nb => get (Basic.vectorsX r) 11 = Basic.medianOf (map (get sX) nb) /\
            get (Basic.vectorsY r) 11 = Basic.medianOf (map (get sY) nb)
    end
  else get (Basic.vectorsX r) 11 = get Sample.chainX 11 /\
       get (Basic.vectorsY r) 11 = get Sample.chainY 11.
Proof.
  refine (local_replacement Basic.PIV_PARAMS Sample.rowX Sample.rowY
            Sample.chainX Sample.chainY None 11 _ _ _);
    vm_compute; try reflexivity; lia.
Defined.

(** C7 as stated fails twice.  In a uniform flow every vector is suspect and
    none has a clean neighbour, and the result holds NaN where the input
    held 1.  In a row with two adjacent outliers, the second one (index 11)
    has a single non-suspect neighbour, of value 0, but becomes 1: the
    first outlier, already replaced by 1, counts as its neighbour. *)
Lemma local_replacement_not_as_specified :
  ~ Spec.replacesByNonSuspectMedian Basic.PIV_PARAMS
      Sample.centresX Sample.centresY Sample.uniformX Sample.uniformY /\
  Basic.vectorsX
    (Basic.processImagePair Basic.PIV_PARAMS Sample.centresX Sample.centresY
       Sample.uniformX Sample.uniformY None) = [nan; nan] /\
  ~ Spec.replacesByNonSuspectMedian Basic.PIV_PARAMS
      Sample.rowX Sample.rowY Sample.chainX Sample.chainY /\
  Spec.nonSuspectNeighbors Basic.PIV_PARAMS
    Sample.rowX Sample.rowY Sample.chainX Sample.chainY 11 = [12%nat] /\
  get Sample.chainX 12 = 0%float /\
  get (Basic.vectorsX
         (Basic.processImagePair Basic.PIV_PARAMS Sample.rowX Sample.rowY
            Sample.chainX Sample.chainY None)) 11 = 1%float.
Proof.
  split; [|split; [vm_compute; reflexivity|split; [|repeat split; vm_compute; reflexivity]]].
  - intros H. specialize (H 0%nat).
    assert (E : get [nan; nan] 0 = 1%float /\ get [nan; nan] 0 = 0%float).
    { revert H. vm_compute. intros H. apply H; [lia|reflexivity]. }
    destruct E as [E _]. revert E. vm_compute. float_neq.
  - intros H. specialize (H 11%nat).
    assert (E : 1%float = 0%float /\ 1%float = 0%float).
    { revert H. vm_compute. intros H. apply H; [lia|reflexivity]. }
    destruct E as [E _]. revert E. float_neq.
Qed.


(** * Further properties of the code *)

(** ** Row-major buffers *)

Lemma range_lookup lo n k :
  (k < n)%nat -> range lo n !! k = Some (lo + Z.of_nat k).
Proof.
  intros Hk. unfold range. change (map ?f ?l) with (f <$> l).
  rewrite list_lookup_fmap, lookup_seq_lt by assumption. reflexivity.
Qed.

Lemma range_S lo n : range lo (S n) = range lo n ++ [lo + Z.of_nat n].
Proof. unfold range. now rewrite seq_S, map_app. Qed.

Lemma rows_length {A : Type} (f : Z -> Z -> A) (w h : nat) :
  length (flat_map (fun j => map (fun i => f i j) (range 0 w)) (range 0 h))
  = (h * w)%nat.
Proof.
  induction h as [|h IH]; [reflexivity|].
  rewrite range_S, flat_map_app, length_app, IH. cbn [flat_map].
  rewrite app_nil_r, length_map, range_length. lia.
Qed.

(** The sample at column [i], row [j] of a buffer filled row by row. *)
Lemma rows_lookup {A : Type} (f : Z -> Z -> A) (w h : nat) (i j : Z) :
  0 <= i < Z.of_nat w -> 0 <= j < Z.of_nat h ->
  flat_map (fun j => map (fun i => f i j) (range 0 w)) (range 0 h)
    !! Z.to_nat (j * Z.of_nat w + i) = Some (f i j).
Proof.
  intros Hi. induction h as [|h IH]; intros Hj; [lia|].
  rewrite range_S, flat_map_app. cbn [flat_map]. rewrite app_nil_r.
  destruct (Z.eq_dec j (Z.of_nat h)) as [->|Hne].
  - rewrite lookup_app_r by (rewrite rows_length; nia).
    rewrite rows_length.
    replace (Z.to_nat (Z.of_nat h * Z.of_nat w + i) - h * w)%nat
      with (Z.to_nat i) by nia.
    change (map ?g ?l) with (g <$> l). rewrite list_lookup_fmap.
    rewrite range_lookup by lia. cbn. f_equal. f_equal; lia.
  - rewrite lookup_app_l by (rewrite rows_length; nia).
    apply IH. lia.
Qed.

Lemma fround_byte b :
  fround (Z2F (Z.of_N (Strings.Byte.to_N b))) = Z2F (Z.of_N (Strings.Byte.to_N b)).
Proof. destruct b; vm_compute; reflexivity. Qed.

Lemma byte_not_nan b : isNaN (Z2F (Z.of_N (Strings.Byte.to_N b))) = false.
Proof. destruct b; vm_compute; reflexivity. Qed.

(** ** [extractWindow] of the advanced server *)

(** X1.  For a non-negative window size, [extractWindow] returns
    [windowSize * windowSize] samples in row-major order; the sample at
    column [i], row [j] is the exact value of the frame pixel at
    [(x + i, y + j)] when that position lies inside the frame (and the pixel
    buffer holds it), and 0 when it lies outside. *)
Theorem extractWindow_samples px width height x y windowSize :
  0 <= windowSize ->
  length (Advanced.extractWindow px width height x y windowSize)
  = Z.to_nat (windowSize * windowSize) /\
  forall i j, 0 <= i < windowSize -> 0 <= j < windowSize ->
    (0 <= x + i < width -> 0 <= y + j < height ->
     forall b, px !! Z.to_nat ((y + j) * width + (x + i)) = Some b ->
       get (Advanced.extractWindow px width height x y windowSize)
           (Z.to_nat (j * windowSize + i))
       = Z2F (Z.of_N (Strings.Byte.to_N b))) /\
    (~ (0 <= x + i < width /\ 0 <= y + j < height) ->
     get (Advanced.extractWindow px width height x y windowSize)
         (Z.to_nat (j * windowSize + i)) = 0%float).
Proof.
  intros HW. unfold Advanced.extractWindow. split; [rewrite rows_length; nia|].
  intros i j Hi Hj. unfold get.
  replace (j * windowSize + i) with (j * Z.of_nat (Z.to_nat windowSize) + i) by lia.
  rewrite (rows_lookup (fun i j =>
    if (0 <=? x + i) && (x + i <? width) && (0 <=? y + j) && (y + j <? height)
    then fround (Advanced.pixelAt px ((y + j) * width + (x + i)))
    else 0%float)) by lia.
  cbn [default]. split.
  - intros Hx Hy b Hb.
    destruct (Z.leb_spec 0 (x + i)); [|lia]. destruct (Z.ltb_spec (x + i) width); [|lia].
    destruct (Z.leb_spec 0 (y + j)); [|lia]. destruct (Z.ltb_spec (y + j) height); [|lia].
    cbn [andb]. unfold Advanced.pixelAt. rewrite Hb. apply fround_byte.
  - intros Hout.
    destruct (Z.leb_spec 0 (x + i)); [|reflexivity].
    destruct (Z.ltb_spec (x + i) width); [|reflexivity].
    destruct (Z.leb_spec 0 (y + j)); [|reflexivity].
    destruct (Z.ltb_spec (y + j) height); [|reflexivity]. lia.
Qed.

Lemma extractWindow_samples_witness :
  length (Advanced.extractWindow (Advanced.pixels Sample.particleA) 5 5 3 3 4)
  = Z.to_nat (4 * 4) /\
  forall i j, 0 <= i < 4 -> 0 <= j < 4 ->
    (0 <= 3 + i < 5 -> 0 <= 3 + j < 5 ->
     forall b, Advanced.pixels Sample.particleA !! Z.to_nat ((3 + j) * 5 + (3 + i))
               = Some b ->
       get (Advanced.extractWindow (Advanced.pixels Sample.particleA) 5 5 3 3 4)
           (Z.to_nat (j * 4 + i))
       = Z2F (Z.of_N (Strings.Byte.to_N b))) /\
    (~ (0 <= 3 + i < 5 /\ 0 <= 3 + j < 5) ->
     get (Advanced.extractWindow (Advanced.pixels Sample.particleA) 5 5 3 3 4)
         (Z.to_nat (j * 4 + i)) = 0%float).
Proof.
  apply (extractWindow_samples (Advanced.pixels Sample.particleA) 5 5 3 3 4). lia.
Defined.

(** ** The result of [normalizedCrossCorrelation] *)

(** The three ways the search ends: a flat template, no offset with a
    score above -Infinity, or a scored offset of the range. *)
Lemma ncc_cases template search windowSize searchRange :
  let r := Advanced.normalizedCrossCorrelation template search windowSize searchRange in
  r = Advanced.mkMatch 0 0 0%float \/
  r = Advanced.mkMatch 0 0 neg_infinity \/
  (Spec.inRange searchRange (Advanced.dx r) (Advanced.dy r) /\
   (neg_infinity <? Advanced.correlation r)%float = true /\
   Advanced.scoreAt template search windowSize (Advanced.dx r) (Advanced.dy r)
   = Some (Advanced.correlation r)).
Proof.
  intros r. destruct (Advanced.templateStd template =? 0)%float eqn:Hstd.
  - left. unfold r, Advanced.normalizedCrossCorrelation. now rewrite Hstd.
  - right.
    pose proof (ncc_scanned template search windowSize searchRange Hstd) as Hscan.
    fold r in Hscan. unfold Scan.ofMatch, Scan.scoreOf in Hscan.
    destruct Hscan as [[E _]|(l1 & l2 & El & Ho & Hm0 & _)]; cbn [fst snd] in *.
    + left. destruct r. cbn in E. congruence.
    + right. repeat split; auto;
        assert (Hin : In (Advanced.dx r, Advanced.dy r) (Spec.scan searchRange))
          by (rewrite El; apply in_or_app; right; now left);
        apply in_scan in Hin; apply Hin.
Qed.

Lemma ncc_in_range template search windowSize searchRange :
  0 <= searchRange ->
  Spec.inRange searchRange
    (Advanced.dx (Advanced.normalizedCrossCorrelation template search windowSize
                    searchRange))
    (Advanced.dy (Advanced.normalizedCrossCorrelation template search windowSize
                    searchRange)).
Proof.
  intros HR.
  destruct (ncc_cases template search windowSize searchRange) as [E|[E|(Hin & _)]];
    [rewrite E; unfold Spec.inRange; cbn; lia..|exact Hin].
Qed.

Lemma ncc_not_nan template search windowSize searchRange :
  isNaN (Advanced.correlation
           (Advanced.normalizedCrossCorrelation template search windowSize
              searchRange)) = false.
Proof.
  destruct (ncc_cases template search windowSize searchRange)
    as [E|[E|(_ & Hlt & _)]]; [now rewrite E..|].
  now destruct (ltb_not_nan _ _ Hlt).
Qed.

(** X2.  For a non-negative search range, both components of the offset
    [normalizedCrossCorrelation] returns lie within the search range, and the
    correlation it returns is never NaN. *)
Theorem ncc_result_bounds template search windowSize searchRange :
  0 <= searchRange ->
  let r := Advanced.normalizedCrossCorrelation template search windowSize searchRange in
  - searchRange <= Advanced.dx r <= searchRange /\
  - searchRange <= Advanced.dy r <= searchRange /\
  isNaN (Advanced.correlation r) = false.
Proof.
  intros HR r. destruct (ncc_in_range template search windowSize searchRange HR).
  fold r in H, H0. split; [lia|]. split; [lia|]. apply ncc_not_nan.
Qed.

Lemma ncc_result_bounds_witness :
  let r := Advanced.normalizedCrossCorrelation Sample.spot Sample.spotBelow 3 2 in
  - 2 <= Advanced.dx r <= 2 /\ - 2 <= Advanced.dy r <= 2 /\
  isNaN (Advanced.correlation r) = false.
Proof. apply (ncc_result_bounds Sample.spot Sample.spotBelow 3 2). lia. Defined.

(** ** Termination and size of the grid loops *)

Lemma iterations_done bound step k :
  0 < step -> bound <= k -> Scan.iterations bound step k = 0%nat.
Proof.
  intros Hs Hk. unfold Scan.iterations.
  assert ((bound - k + step - 1) / step <= 0); [|lia].
  apply Z.lt_succ_r. apply Z.div_lt_upper_bound; lia.
Qed.

Lemma iterations_step bound step k :
  0 < step -> k < bound ->
  Scan.iterations bound step k = S (Scan.iterations bound step (k + step)).
Proof.
  intros Hs Hk. unfold Scan.iterations.
  replace (bound - k + step - 1) with ((bound - (k + step) + step - 1) + 1 * step) by lia.
  rewrite Z.div_add by lia.
  assert (0 <= (bound - (k + step) + step - 1) / step); [|lia].
  apply Z.div_pos; lia.
Qed.

Lemma forLoop_total {S : Type} (fuel : nat) (bound step k : Z)
    (body : Z -> S -> option S) (st : S) :
  (forall k st, exists st', body k st = Some st') ->
  0 < step -> (Scan.iterations bound step k < fuel)%nat ->
  exists st', Advanced.forLoop fuel bound step body k st = Some st'.
Proof.
  intros Hbody Hstep. revert k st.
  induction fuel as [|fuel IH]; intros k st Hfuel; [lia|].
  cbn [Advanced.forLoop]. destruct (Z.ltb_spec k bound); [|eauto].
  destruct (Hbody k st) as [st1 ->]. apply IH.
  rewrite iterations_step in Hfuel by assumption. lia.
Qed.

Lemma forLoop_grows {S : Type} (size : S -> nat) (c : nat) (fuel : nat)
    (bound step k : Z) (body : Z -> S -> option S) (st st' : S) :
  (forall k st st', body k st = Some st' -> (size st' <= size st + c)%nat) ->
  0 < step ->
  Advanced.forLoop fuel bound step body k st = Some st' ->
  (size st' <= size st + Scan.iterations bound step k * c)%nat.
Proof.
  intros Hbody Hstep. revert k st.
  induction fuel as [|fuel IH]; intros k st; [discriminate|].
  cbn [Advanced.forLoop]. destruct (Z.ltb_spec k bound).
  - destruct (body k st) as [st1|] eqn:E; [|discriminate].
    intros Hrun. apply IH in Hrun. apply Hbody in E.
    rewrite (iterations_step bound step k) by assumption. lia.
  - intros [= <-]. lia.
Qed.

Lemma correlateWindow_length image1 image2 config x0 y0 vectors :
  (length (Advanced.correlateWindow image1 image2 config x0 y0 vectors)
   <= length vectors + 1)%nat.
Proof.
  unfold Advanced.correlateWindow. destruct (_ <=? _)%float; [|lia].
  rewrite length_app. cbn. lia.
Qed.

Lemma computePIVField_total image1 image2 config fuel :
  0 < Advanced.stepSize config ->
  (Scan.iterations (Advanced.height image1 - Advanced.interrogationWindow config)
     (Advanced.stepSize config) 0 < fuel)%nat ->
  (Scan.iterations (Advanced.width image1 - Advanced.interrogationWindow config)
     (Advanced.stepSize config) 0 < fuel)%nat ->
  exists vectors,
    Advanced.computePIVField image1 image2 config fuel = Some vectors /\
    (length vectors
     <= Scan.iterations (Advanced.height image1 - Advanced.interrogationWindow config)
          (Advanced.stepSize config) 0
        * Scan.iterations (Advanced.width image1 - Advanced.interrogationWindow config)
            (Advanced.stepSize config) 0)%nat.
Proof.
  intros Hstep Hh Hw. unfold Advanced.computePIVField.
  destruct (forLoop_total fuel
    (Advanced.height image1 - Advanced.interrogationWindow config)
    (Advanced.stepSize config) 0
    (fun y0 vectors =>
       Advanced.forLoop fuel
         (Advanced.width image1 - Advanced.interrogationWindow config)
         (Advanced.stepSize config)
         (fun x0 vectors =>
            Some (Advanced.correlateWindow image1 image2 config x0 y0 vectors))
         0 vectors) []) as [vectors Hrun]; auto.
  { intros y0 st. apply forLoop_total; eauto. }
  exists vectors. split; [exact Hrun|].
  apply (forLoop_grows (@length Advanced.Vector)
           (Scan.iterations (Advanced.width image1 - Advanced.interrogationWindow config)
              (Advanced.stepSize config) 0)) in Hrun; auto.
  intros y0 st st' Hrow.
  apply (forLoop_grows (@length Advanced.Vector) 1) in Hrow; auto; [lia|].
  intros x0 st1 st2 [= <-]. apply correlateWindow_length.
Qed.

(** X3.  With a positive step, [computePIVField] returns once the fuel
    exceeds the number of window rows and of window columns, and the field
    it returns holds at most rows x columns vectors. *)
Theorem computePIVField_terminates image1 image2 config fuel :
  0 < Advanced.stepSize config ->
  (Scan.iterations (Advanced.height image1 - Advanced.interrogationWindow config)
     (Advanced.stepSize config) 0 < fuel)%nat ->
  (Scan.iterations (Advanced.width image1 - Advanced.interrogationWindow config)
     (Advanced.stepSize config) 0 < fuel)%nat ->
  exists vectors,
    Advanced.computePIVField image1 image2 config fuel = Some vectors /\
    (length vectors
     <= Scan.iterations (Advanced.height image1 - Advanced.interrogationWindow config)
          (Advanced.stepSize config) 0
        * Scan.iterations (Advanced.width image1 - Advanced.interrogationWindow config)
            (Advanced.stepSize config) 0)%nat.
Proof. apply computePIVField_total. Qed.

Lemma computePIVField_terminates_witness :
  exists vectors,
    Advanced.computePIVField Sample.particleA Sample.particleB Sample.particleConfig 2
    = Some vectors /\
    (length vectors
     <= Scan.iterations (5 - 4) (Advanced.stepSize Sample.particleConfig) 0
        * Scan.iterations (5 - 4) (Advanced.stepSize Sample.particleConfig) 0)%nat.
Proof.
  apply (computePIVField_terminates
           Sample.particleA Sample.particleB Sample.particleConfig 2);
    vm_compute; first [reflexivity|lia].
Defined.

(** X4.  With a finite step of zero or less (a finite overlap of 1 or
    more) and a frame larger than the window in both directions, no amount
    of fuel lets [computePIVField] return: the grid loops never end. *)
Theorem computePIVField_never_returns image1 image2 config fuel :
  is_finite (Z2F (Advanced.interrogationWindow config)
             * (1 - Advanced.overlap config))%float = true ->
  Advanced.stepSize config <= 0 ->
  Advanced.interrogationWindow config < Advanced.width image1 ->
  Advanced.interrogationWindow config < Advanced.height image1 ->
  Advanced.computePIVField image1 image2 config fuel = None.
Proof.
  intros _ Hstep Hw Hh. unfold Advanced.computePIVField.
  destruct fuel as [|fuel]; [reflexivity|].
  apply forLoop_body_diverges; [lia|].
  apply forLoop_stuck; [assumption|lia].
Qed.

Lemma computePIVField_never_returns_witness :
  Advanced.computePIVField Sample.particleA Sample.particleB Sample.fullOverlap 1000 = None.
Proof.
  apply (computePIVField_never_returns Sample.particleA Sample.particleB Sample.fullOverlap 1000);
    vm_compute; first [reflexivity|discriminate].
Defined.

(** A loop only runs its body at [k0], [k0 + step], ... below the bound. *)
Lemma forLoop_visits {S : Type} (P : S -> Prop) (fuel : nat) (bound step k0 : Z)
    (body : Z -> S -> option S) (st st' : S) :
  (forall k st st',
     k0 <= k < bound -> (step | k - k0) -> P st -> body k st = Some st' -> P st') ->
  P st -> Advanced.forLoop fuel bound step body k0 st = Some st' -> P st'.
Proof.
  intros Hbody HP Hrun.
  destruct (Z.le_gt_cases step 0) as [Hstep|Hstep].
  { destruct (Z.lt_ge_cases k0 bound) as [Hk|Hk].
    - now rewrite forLoop_stuck in Hrun.
    - destruct fuel; [discriminate|]. rewrite forLoop_skip in Hrun by assumption.
      congruence. }
  assert (Hgen : forall k st, k0 <= k -> (step | k - k0) -> P st ->
                 Advanced.forLoop fuel bound step body k st = Some st' -> P st').
  { clear st HP Hrun. induction fuel as [|fuel IH]; intros k st Hk Hdiv HP; [discriminate|].
    cbn [Advanced.forLoop]. destruct (Z.ltb_spec k bound); [|congruence].
    destruct (body k st) as [st1|] eqn:E; [|discriminate].
    apply IH; [lia| |eapply Hbody; eauto; lia].
    replace (k + step - k0) with ((k - k0) + step) by lia.
    apply Z.divide_add_r; [assumption|apply Z.divide_refl]. }
  eapply Hgen; eauto; [lia|]. rewrite Z.sub_diag. apply Z.divide_0_r.
Qed.

Lemma computePIVField_reported image1 image2 config fuel vectors w :
  Advanced.computePIVField image1 image2 config fuel = Some vectors ->
  In w vectors -> Scan.reported image1 config w.
Proof.
  intros Hrun Hin. revert w Hin. apply List.Forall_forall.
  revert Hrun. unfold Advanced.computePIVField.
  apply (forLoop_visits (List.Forall (Scan.reported image1 config))); [|constructor].
  intros y0 st st' Hy Hdy Hst.
  apply (forLoop_visits (List.Forall (Scan.reported image1 config))); [|exact Hst].
  intros x0 st1 st2 Hx Hdx Hst1 [= <-].
  unfold Advanced.correlateWindow.
  set (r := Advanced.normalizedCrossCorrelation _ _ _ _).
  destruct (_ <=? _)%float eqn:Hmin; [|exact Hst1].
  apply List.Forall_app. split; [exact Hst1|]. constructor; [|constructor].
  rewrite Z.sub_0_r in Hdx, Hdy.
  exists x0, y0, (Advanced.dx r), (Advanced.dy r). cbn.
  do 8 (split; [first [lia|assumption|reflexivity]|]).
  split; [intros HR; now apply ncc_in_range|exact Hmin].
Qed.

(** X5.  With a search range other than 0, every vector of a field
    [computePIVField] returns comes from a window that lies strictly inside
    the frame at a multiple of the step in both directions, is placed at
    the window centre, carries an integer offset within the search range,
    and has a correlation of at least [minimumCorrelation]. *)
Theorem computePIVField_vectors image1 image2 config fuel vectors w :
  Advanced.searchRange config <> 0 ->
  Advanced.computePIVField image1 image2 config fuel = Some vectors ->
  In w vectors -> Scan.reported image1 config w.
Proof. intros _. apply computePIVField_reported. Qed.

Lemma computePIVField_vectors_witness :
  List.Forall (Scan.reported Sample.particleA Sample.particleConfig)
    (default []
       (Advanced.computePIVField Sample.particleA Sample.particleB
          Sample.particleConfig 2)).
Proof.
  apply List.Forall_forall. intros w Hin.
  refine (computePIVField_vectors Sample.particleA Sample.particleB
            Sample.particleConfig 2
            (default []
               (Advanced.computePIVField Sample.particleA Sample.particleB
                  Sample.particleConfig 2)) w _ _ Hin).
  - vm_compute. discriminate.
  - vm_compute. reflexivity.
Defined.


(** ** Calibration and outlier removal, continued *)

(** X6.  A calibration of zero or NaN counts as absent in the advanced
    server: the statistics are those computed without calibration.  In the
    first server [pixelsPerMM] is never zero and never NaN, so the physical
    figures are never divided by zero. *)
Theorem calibration_never_zero :
  (forall vectors c,
     (c =? 0)%float = true \/ isNaN c = true ->
     Advanced.calculateStatistics vectors (Some c)
     = Advanced.calculateStatistics vectors None)
  /\
  (forall p oX oY vX vY calibration,
     let s := Basic.statistics (Basic.processImagePair p oX oY vX vY calibration) in
     (Basic.pixelsPerMM s =? 0)%float = false /\
     isNaN (Basic.pixelsPerMM s) = false).
Proof.
  split.
  - intros vectors c Hc.
    assert (E : Advanced.truthy c = false).
    { unfold Advanced.truthy. destruct Hc as [-> | ->]; [reflexivity|].
      apply andb_false_r. }
    unfold Advanced.calculateStatistics. now rewrite E.
  - intros p oX oY vX vY calibration s.
    destruct (processImagePair_statistics p oX oY vX vY calibration)
      as (_ & _ & _ & Hppm & _).
    fold s in Hppm. rewrite Hppm.
    destruct calibration as [c|]; [|split; reflexivity].
    unfold Basic.truthy. destruct (c =? 0)%float eqn:E0; [split; reflexivity|].
    destruct (isNaN c) eqn:En; cbn; [split; reflexivity|]. auto.
Qed.

(** X7.  [removeOutliers] returns a sub-sequence of its input: it neither
    reorders nor alters nor adds vectors, and never lengthens the field. *)
Theorem removeOutliers_sublist vectors threshold :
  sublist (Advanced.removeOutliers vectors threshold) vectors /\
  (length (Advanced.removeOutliers vectors threshold) <= length vectors)%nat.
Proof.
  assert (H : sublist (Advanced.removeOutliers vectors threshold) vectors).
  { unfold Advanced.removeOutliers. destruct vectors as [|w ws] eqn:E; [constructor|].
    rewrite <- E. generalize (fun w : Advanced.Vector =>
      (abs (Advanced.magnitude w - Advanced.middle (sort (map Advanced.magnitude vectors)))
       <=? threshold * Advanced.middle (sort (map (fun m => abs (m - Advanced.middle (sort (map Advanced.magnitude vectors)))) (map Advanced.magnitude vectors))))%float).
    intros f. clear. induction vectors as [|v vs IH]; [constructor|].
    cbn [List.filter]. destruct (f v); [now apply sublist_skip|now apply sublist_cons]. }
  split; [exact H|]. now apply sublist_length.
Qed.

(** ** The request handlers of the advanced server *)

Import AdvancedRoutes.

Lemma processPairs_spec config width height buffers calibration fuel indices acc res :
  processPairs config width height buffers calibration fuel indices acc = Some res ->
  exists rs,
    res = acc ++ rs /\ length rs = length indices /\
    forall k i, indices !! k = Some i ->
      exists vs st,
        Advanced.processPair (frame width height buffers i)
          (frame width height buffers (S i)) config calibration fuel = Some (vs, st) /\
        rs !! k = Some (mkPairResult i vs st).
Proof.
  revert acc. induction indices as [|i rest IH]; intros acc; cbn [processPairs].
  - intros [= <-]. exists []. rewrite app_nil_r. repeat split; auto.
    intros k i Hk. discriminate Hk.
  - destruct (Advanced.processPair _ _ _ _ _) as [[vs st]|] eqn:E; [|discriminate].
    intros Hrun. apply IH in Hrun as (rs & -> & Hlen & Hall).
    exists (mkPairResult i vs st :: rs). rewrite <- app_assoc. cbn [app length].
    repeat split; auto.
    intros [|k] j Hk; cbn in Hk.
    + injection Hk as <-. eauto.
    + apply Hall in Hk. exact Hk.
Qed.

Lemma processPairs_total config width height buffers calibration fuel indices acc :
  0 < Advanced.stepSize config ->
  (Scan.iterations (height - Advanced.interrogationWindow config)
     (Advanced.stepSize config) 0 < fuel)%nat ->
  (Scan.iterations (width - Advanced.interrogationWindow config)
     (Advanced.stepSize config) 0 < fuel)%nat ->
  exists res,
    processPairs config width height buffers calibration fuel indices acc = Some res.
Proof.
  intros Hstep Hh Hw. revert acc.
  induction indices as [|i rest IH]; intros acc; cbn [processPairs]; [eauto|].
  unfold Advanced.processPair.
  destruct (computePIVField_total (frame width height buffers i)
              (frame width height buffers (S i)) config fuel Hstep Hh Hw)
    as (vectors & -> & _).
  apply IH.
Qed.

(** X8.  [/process-raw] with its three parameters present: fewer than two
    frames are refused with status 400; an answer for [n] frames holds
    [n - 1] statistics blocks, the [i]-th being the pipeline's statistics
    for the frames [i] and [i + 1].  With a positive step and fuel for the
    window rows and columns, the handler answers. *)
Theorem processRaw_pairs config rawDataPath width height buffers calibration fuel :
  rawDataPath <> String.EmptyString -> width <> 0 -> height <> 0 ->
  ((length buffers < 2)%nat ->
   processRaw config rawDataPath width height buffers calibration fuel
   = Some (BadRequest "Need at least 2 frames for PIV analysis"))
  /\
  (forall s,
     processRaw config rawDataPath width height buffers calibration fuel = Some (Ok s) ->
     (2 <= length buffers)%nat /\
     pairCount s = (length buffers - 1)%nat /\
     length (results s) = (length buffers - 1)%nat /\
     forall i, (i < length buffers - 1)%nat ->
       exists vs st,
         Advanced.processPair (frame width height buffers i)
           (frame width height buffers (S i)) config calibration fuel = Some (vs, st) /\
         results s !! i = Some st)
  /\
  (0 < Advanced.stepSize config ->
   (Scan.iterations (height - Advanced.interrogationWindow config)
      (Advanced.stepSize config) 0 < fuel)%nat ->
   (Scan.iterations (width - Advanced.interrogationWindow config)
      (Advanced.stepSize config) 0 < fuel)%nat ->
   exists response,
     processRaw config rawDataPath width height buffers calibration fuel
     = Some response).
Proof.
  intros Hpath Hw Hh. unfold processRaw.
  apply String.eqb_neq in Hpath. apply Z.eqb_neq in Hw, Hh.
  rewrite Hpath, Hw, Hh. cbn [orb]. split; [|split].
  3: { intros Hstep Hfh Hfw. destruct (length buffers <? 2)%nat; [eauto|].
       destruct (processPairs_total config width height buffers calibration fuel
                   (seq 0 (length buffers - 1)) [] Hstep Hfh Hfw) as [res ->].
       eauto. }
  - intros Hn. apply Nat.ltb_lt in Hn. now rewrite Hn.
  - intros s. destruct (Nat.ltb_spec (length buffers) 2) as [Hn|Hn]; [discriminate|].
    destruct (processPairs _ _ _ _ _ _ _ _) as [res|] eqn:E; [|discriminate].
    intros [= <-]. cbn [pairCount results].
    apply processPairs_spec in E as (rs & -> & Hlen & Hall).
    rewrite length_seq in Hlen. cbn [app]. rewrite length_map.
    repeat split; auto.
    intros i Hi. destruct (Hall i i) as (vs & st & Hrun & Hrs).
    { now apply lookup_seq_lt. }
    exists vs, st. split; [exact Hrun|].
    change (map ?f ?l) with (f <$> l). rewrite list_lookup_fmap, Hrs. reflexivity.
Qed.

Lemma processRaw_pairs_witness :
  ((length [Advanced.pixels Sample.tiny; Advanced.pixels Sample.tiny] < 2)%nat ->
   processRaw Advanced.PIV_CONFIG "raw" 2 2
     [Advanced.pixels Sample.tiny; Advanced.pixels Sample.tiny] None 1
   = Some (BadRequest "Need at least 2 frames for PIV analysis"))
  /\
  (forall s,
     processRaw Advanced.PIV_CONFIG "raw" 2 2
       [Advanced.pixels Sample.tiny; Advanced.pixels Sample.tiny] None 1
     = Some (Ok s) ->
     (2 <= length [Advanced.pixels Sample.tiny; Advanced.pixels Sample.tiny])%nat /\
     pairCount s
     = (length [Advanced.pixels Sample.tiny; Advanced.pixels Sample.tiny] - 1)%nat /\
     length (results s)
     = (length [Advanced.pixels Sample.tiny; Advanced.pixels Sample.tiny] - 1)%nat /\
     forall i,
       (i < length [Advanced.pixels Sample.tiny; Advanced.pixels Sample.tiny] - 1)%nat ->
       exists vs st,
         Advanced.processPair
           (frame 2 2 [Advanced.pixels Sample.tiny; Advanced.pixels Sample.tiny] i)
           (frame 2 2 [Advanced.pixels Sample.tiny; Advanced.pixels Sample.tiny] (S i))
           Advanced.PIV_CONFIG None 1 = Some (vs, st) /\
         results s !! i = Some st)
  /\
  (0 < Advanced.stepSize Advanced.PIV_CONFIG ->
   (Scan.iterations (2 - Advanced.interrogationWindow Advanced.PIV_CONFIG)
      (Advanced.stepSize Advanced.PIV_CONFIG) 0 < 1)%nat ->
   (Scan.iterations (2 - Advanced.interrogationWindow Advanced.PIV_CONFIG)
      (Advanced.stepSize Advanced.PIV_CONFIG) 0 < 1)%nat ->
   exists response,
     processRaw Advanced.PIV_CONFIG "raw" 2 2
       [Advanced.pixels Sample.tiny; Advanced.pixels Sample.tiny] None 1
     = Some response).
Proof.
  apply (processRaw_pairs Advanced.PIV_CONFIG "raw" 2 2
           [Advanced.pixels Sample.tiny; Advanced.pixels Sample.tiny] None 1);
    discriminate.
Defined.

(** X9.  [/process-realtime] overrides window, overlap and search range, so
    whatever the current configuration holds (even an overlap that makes
    [/process] loop forever) it returns once the fuel exceeds the number of
    64-pixel window rows and columns; the vectors it answers with are the
    field [computePIVField] returns under the coarse configuration, with no
    outlier filter in between, each from a window at a multiple of 64 with
    an offset within 16 pixels, and its statistics are those of that field
    without calibration. *)
Theorem processRealtime_returns config image1 image2 fuel :
  (Scan.iterations (Advanced.height image1 - 64) 64 0 < fuel)%nat ->
  (Scan.iterations (Advanced.width image1 - 64) 64 0 < fuel)%nat ->
  exists vectors,
    Advanced.computePIVField image1 image2 (coarseConfig config) fuel = Some vectors /\
    processRealtime config image1 image2 fuel
    = Some (vectors, Advanced.calculateStatistics vectors None) /\
    Advanced.stepSize (coarseConfig config) = 64 /\
    Advanced.pixelsPerMM (Advanced.calculateStatistics vectors None) = None /\
    List.Forall (Scan.reported image1 (coarseConfig config)) vectors.
Proof.
  intros Hh Hw.
  assert (Hstep : Advanced.stepSize (coarseConfig config) = 64) by reflexivity.
  destruct (computePIVField_total image1 image2 (coarseConfig config) fuel)
    as (vectors & Hrun & _); rewrite ?Hstep; cbn [coarseConfig Advanced.interrogationWindow];
    auto; try lia.
  exists vectors. unfold processRealtime. rewrite Hrun.
  repeat split; auto.
  - now destruct vectors.
  - apply List.Forall_forall. intros w Hin.
    eapply computePIVField_reported; eauto.
Qed.

Lemma processRealtime_returns_witness :
  exists vectors,
    Advanced.computePIVField Sample.tiny Sample.tiny (coarseConfig Sample.fullOverlap) 1
    = Some vectors /\
    processRealtime Sample.fullOverlap Sample.tiny Sample.tiny 1
    = Some (vectors, Advanced.calculateStatistics vectors None) /\
    Advanced.stepSize (coarseConfig Sample.fullOverlap) = 64 /\
    Advanced.pixelsPerMM (Advanced.calculateStatistics vectors None) = None /\
    List.Forall (Scan.reported Sample.tiny (coarseConfig Sample.fullOverlap)) vectors.
Proof.
  apply (processRealtime_returns Sample.fullOverlap Sample.tiny Sample.tiny 1);
    vm_compute; lia.
Defined.

(** * The first server *)

Import BasicFront.

(** ** Reflective padding *)

Lemma reflect_inside size src : 0 <= src < size -> reflect size src = src.
Proof.
  intros H. unfold reflect.
  destruct (Z.ltb_spec src 0); [lia|]. destruct (Z.leb_spec size src); lia.
Qed.

Lemma reflect_bounds size pad k :
  0 <= pad <= size -> 0 <= k < size + pad + pad ->
  0 <= reflect size (k - pad) < size.
Proof.
  intros Hp Hk. unfold reflect.
  destruct (Z.ltb_spec (k - pad) 0);
    [destruct (Z.leb_spec size (- (k - pad) - 1))|destruct (Z.leb_spec size (k - pad))];
    lia.
Qed.

Lemma padFrame_length data width height padLeft padRight padTop padBottom :
  length (padFrame data width height padLeft padRight padTop padBottom)
  = (Z.to_nat (height + padTop + padBottom) * Z.to_nat (width + padLeft + padRight))%nat.
Proof. unfold padFrame. apply rows_length. Qed.

Lemma padFrame_at data width height padLeft padRight padTop padBottom x y :
  0 <= x < width + padLeft + padRight -> 0 <= y < height + padTop + padBottom ->
  at_ (padFrame data width height padLeft padRight padTop padBottom)
      (y * (width + padLeft + padRight) + x)
  = fround (sample data (reflect height (y - padTop) * width
                         + reflect width (x - padLeft))).
Proof.
  intros Hx Hy. unfold at_, padFrame, get.
  destruct (Z.ltb_spec (y * (width + padLeft + padRight) + x) 0); [nia|].
  replace (y * (width + padLeft + padRight) + x)
    with (y * Z.of_nat (Z.to_nat (width + padLeft + padRight)) + x) by lia.
  rewrite (rows_lookup (fun x y =>
    fround (sample data (reflect height (y - padTop) * width
                         + reflect width (x - padLeft))))) by lia.
  reflexivity.
Qed.

(** A pixel of a frame whose buffer holds [width * height] bytes. *)
Lemma sample_inside data width height x y :
  Z.of_nat (length data) = width * height ->
  0 <= x < width -> 0 <= y < height ->
  exists b, data !! Z.to_nat (y * width + x) = Some b /\
            sample data (y * width + x) = Z2F (Z.of_N (Strings.Byte.to_N b)).
Proof.
  intros Hlen Hx Hy. unfold sample.
  destruct (Z.ltb_spec (y * width + x) 0); [nia|].
  destruct (data !! Z.to_nat (y * width + x)) as [b|] eqn:E; [eauto|].
  apply lookup_ge_None in E. nia.
Qed.

(** X10.  With paddings no larger than the frame, the padded buffer has
    [paddedWidth * paddedHeight] samples, each the exact value of a pixel of
    the frame: the frame itself in the middle, mirrored copies around it.
    No read leaves the pixel buffer, so no sample is NaN. *)
Theorem padFrame_samples data width height padLeft padRight padTop padBottom :
  Z.of_nat (length data) = width * height ->
  0 <= padLeft <= width -> 0 <= padRight <= width ->
  0 <= padTop <= height -> 0 <= padBottom <= height ->
  let padded := padFrame data width height padLeft padRight padTop padBottom in
  let paddedWidth := width + padLeft + padRight in
  let paddedHeight := height + padTop + padBottom in
  length padded = Z.to_nat (paddedWidth * paddedHeight) /\
  (forall x y, 0 <= x < paddedWidth -> 0 <= y < paddedHeight ->
     exists b,
       data !! Z.to_nat (reflect height (y - padTop) * width
                         + reflect width (x - padLeft)) = Some b /\
       at_ padded (y * paddedWidth + x) = Z2F (Z.of_N (Strings.Byte.to_N b)) /\
       isNaN (at_ padded (y * paddedWidth + x)) = false) /\
  (forall x y, 0 <= x < width -> 0 <= y < height ->
     at_ padded ((y + padTop) * paddedWidth + (x + padLeft))
     = sample data (y * width + x)).
Proof.
  intros Hlen HL HR HT HB padded paddedWidth paddedHeight.
  subst padded paddedWidth paddedHeight. split; [|split].
  - rewrite padFrame_length. nia.
  - intros x y Hx Hy. rewrite padFrame_at by lia.
    assert (Hrx : 0 <= reflect width (x - padLeft) < width).
    { unfold reflect. destruct (Z.ltb_spec (x - padLeft) 0);
        [destruct (Z.leb_spec width (- (x - padLeft) - 1))
        |destruct (Z.leb_spec width (x - padLeft))]; lia. }
    assert (Hry : 0 <= reflect height (y - padTop) < height).
    { unfold reflect. destruct (Z.ltb_spec (y - padTop) 0);
        [destruct (Z.leb_spec height (- (y - padTop) - 1))
        |destruct (Z.leb_spec height (y - padTop))]; lia. }
    destruct (sample_inside data width height _ _ Hlen Hrx Hry) as (b & Hb & ->).
    exists b. rewrite fround_byte. auto using byte_not_nan.
  - intros x y Hx Hy. rewrite padFrame_at by lia.
    replace (y + padTop - padTop) with y by lia.
    replace (x + padLeft - padLeft) with x by lia.
    rewrite !reflect_inside by lia.
    destruct (sample_inside data width height x y Hlen Hx Hy) as (b & _ & ->).
    apply fround_byte.
Qed.

Lemma padFrame_samples_witness :
  let padded := padFrame (Advanced.pixels Sample.tiny) 2 2 1 1 1 1 in
  let paddedWidth := 2 + 1 + 1 in
  let paddedHeight := 2 + 1 + 1 in
  length padded = Z.to_nat (paddedWidth * paddedHeight) /\
  (forall x y, 0 <= x < paddedWidth -> 0 <= y < paddedHeight ->
     exists b,
       Advanced.pixels Sample.tiny
         !! Z.to_nat (reflect 2 (y - 1) * 2 + reflect 2 (x - 1)) = Some b /\
       at_ padded (y * paddedWidth + x) = Z2F (Z.of_N (Strings.Byte.to_N b)) /\
       isNaN (at_ padded (y * paddedWidth + x)) = false) /\
  (forall x y, 0 <= x < 2 -> 0 <= y < 2 ->
     at_ padded ((y + 1) * paddedWidth + (x + 1))
     = sample (Advanced.pixels Sample.tiny) (y * 2 + x)).
Proof.
  apply (padFrame_samples (Advanced.pixels Sample.tiny) 2 2 1 1 1 1);
    first [reflexivity|lia].
Defined.

(** ** The windows of the grid *)

Lemma flat_map_ext_in {A B : Type} (f g : A -> list B) (l : list A) :
  (forall a, In a l -> f a = g a) -> flat_map f l = flat_map g l.
Proof.
  induction l as [|a l IH]; intros H; [reflexivity|]. cbn [flat_map].
  rewrite (H a) by (now left). f_equal. apply IH. intros. apply H. now right.
Qed.

(** A window that lies in the frame's place in the padded buffer. *)
Lemma window_frame_block
    data width height padLeft padRight padTop padBottom x y windowWidth windowHeight :
  0 <= padLeft -> 0 <= padRight -> 0 <= padTop -> 0 <= padBottom ->
  padLeft <= x -> x + windowWidth <= width + padLeft ->
  padTop <= y -> y + windowHeight <= height + padTop ->
  extractWindow (padFrame data width height padLeft padRight padTop padBottom)
    x y windowWidth windowHeight (width + padLeft + padRight)
  = frameBlock data width (x - padLeft) (y - padTop) windowWidth windowHeight.
Proof.
  intros HL HR HT HB Hx1 Hx2 Hy1 Hy2. unfold extractWindow, frameBlock.
  apply flat_map_ext_in. intros row Hrow%in_range.
  apply map_ext_in. intros col Hcol%in_range.
  rewrite padFrame_at by lia.
  rewrite !reflect_inside by lia.
  do 2 f_equal. lia.
Qed.

(** X11.  At every position the grid loops visit ([padLeft <= x] and
    [x + windowWidth <= width + padLeft], likewise for [y]), the window
    taken from the padded frame is the block of the unpadded frame with
    top-left corner [(x - padLeft, y - padTop)]: the windows that are
    correlated never contain a padded sample. *)
Theorem grid_window_is_frame_block
    data width height padLeft padRight padTop padBottom x y windowWidth windowHeight :
  0 <= padLeft -> 0 <= padRight -> 0 <= padTop -> 0 <= padBottom ->
  padLeft <= x -> x + windowWidth <= width + padLeft ->
  padTop <= y -> y + windowHeight <= height + padTop ->
  extractWindow (padFrame data width height padLeft padRight padTop padBottom)
    x y windowWidth windowHeight (width + padLeft + padRight)
  = frameBlock data width (x - padLeft) (y - padTop) windowWidth windowHeight.
Proof. apply window_frame_block. Qed.

Lemma grid_window_is_frame_block_witness :
  extractWindow (padFrame (Advanced.pixels Sample.tiny) 2 2 1 1 1 1) 1 1 2 2 (2 + 1 + 1)
  = frameBlock (Advanced.pixels Sample.tiny) 2 (1 - 1) (1 - 1) 2 2.
Proof.
  apply (grid_window_is_frame_block (Advanced.pixels Sample.tiny) 2 2 1 1 1 1 1 1 2 2);
    lia.
Defined.

Section Grid.
Variable applyHanningWindow : list float -> Z -> Z -> list float.
Variable p : Params.
Variables frame1 frame2 : Frame.

Local Abbreviation padLeft := (windowWidth p / 2).
Local Abbreviation padTop := (windowHeight p / 2).
Local Abbreviation paddedWidth := (width frame1 + padLeft + padLeft).
Local Abbreviation frame1Padded :=
  (padFrame (data frame1) (width frame1) (height frame1) padLeft padLeft padTop padTop).
Local Abbreviation frame2Padded :=
  (padFrame (data frame2) (width frame1) (height frame1) padLeft padLeft padTop padTop).

Lemma window_gridded x y acc :
  0 <= windowWidth p -> 0 <= windowHeight p ->
  padLeft <= x -> x + windowWidth p <= width frame1 + padLeft ->
  padTop <= y -> y + windowHeight p <= height frame1 + padTop ->
  (stepSize p | x - padLeft) -> (stepSize p | y - padTop) ->
  gridded applyHanningWindow p frame1 frame2 acc ->
  gridded applyHanningWindow p frame1 frame2
    (window applyHanningWindow p frame1Padded frame2Padded paddedWidth
       padLeft padTop x y acc).
Proof.
  intros HW HH Hx1 Hx2 Hy1 Hy2 Hdx Hdy (L1 & L2 & L3 & Hall).
  assert (HpL : 0 <= padLeft) by (apply Z.div_pos; lia).
  assert (HpT : 0 <= padTop) by (apply Z.div_pos; lia).
  unfold window.
  destruct (_ && _) eqn:Hroi; [|repeat split; auto].
  apply andb_prop in Hroi as [[[R1 R2]%andb_prop R3]%andb_prop R4].
  apply Z.leb_le in R1, R2, R3, R4.
  rewrite !window_frame_block by lia.
  unfold gridded. cbn [originsX originsY vectorsX vectorsY].
  rewrite !length_app. cbn [length].
  split; [lia|]. split; [lia|]. split; [lia|].
  intros k Hk. destruct (Nat.eq_dec k (length (originsX acc))) as [->|Hne].
  - exists (x - padLeft), (y - padTop).
    do 8 (split; [first [lia|assumption]|]).
    unfold entryAt. cbn [originsX originsY vectorsX vectorsY].
    rewrite !list_lookup_middle by congruence.
    repeat split; do 2 f_equal; lia.
  - destruct (Hall k) as (x0 & y0 & H); [lia|].
    exists x0, y0. destruct H as (? & ? & ? & ? & ? & ? & ? & ? & E1 & E2 & E3 & E4).
    do 8 (split; [assumption|]).
    unfold entryAt. cbn [originsX originsY vectorsX vectorsY].
    rewrite !lookup_app_l by lia. auto.
Qed.

Lemma grid_gridded fuel a :
  0 <= windowWidth p -> 0 <= windowHeight p ->
  grid applyHanningWindow p frame1Padded frame2Padded
    paddedWidth (height frame1 + padTop + padTop) padLeft padLeft padTop padTop fuel
  = Some a ->
  gridded applyHanningWindow p frame1 frame2 a.
Proof.
  intros HW HH. unfold grid.
  apply (forLoop_visits (gridded applyHanningWindow p frame1 frame2)).
  - intros y st st' Hy Hdy Hst.
    apply (forLoop_visits (gridded applyHanningWindow p frame1 frame2)); [|exact Hst].
    intros x st1 st2 Hx Hdx Hst1 [= <-].
    apply window_gridded; auto; lia.
  - repeat split; auto. cbn. intros k Hk. lia.
Qed.

End Grid.

Lemma iterations_shift bound step k c :
  Scan.iterations (bound + c) step (k + c) = Scan.iterations bound step k.
Proof. unfold Scan.iterations. do 2 f_equal. lia. Qed.

Lemma grid_total applyHanningWindow p f1 f2
    paddedWidth paddedHeight padLeft padRight padTop padBottom fuel :
  0 < stepSize p ->
  (Scan.iterations (paddedHeight - padBottom - windowHeight p + 1) (stepSize p) padTop
   < fuel)%nat ->
  (Scan.iterations (paddedWidth - padRight - windowWidth p + 1) (stepSize p) padLeft
   < fuel)%nat ->
  exists a,
    grid applyHanningWindow p f1 f2 paddedWidth paddedHeight
      padLeft padRight padTop padBottom fuel = Some a.
Proof.
  intros Hstep Hh Hw. unfold grid.
  apply forLoop_total; [|assumption..].
  intros y st. apply forLoop_total; [|assumption..]. eauto.
Qed.

(** Fuel for the rows and the columns of the grid is enough for
    [processImagePair]. *)
Lemma processImagePair_total applyHanningWindow p frame1 frame2 calibration fuel :
  0 < stepSize p ->
  (Scan.iterations (height frame1 - windowHeight p + 1) (stepSize p) 0 < fuel)%nat ->
  (Scan.iterations (width frame1 - windowWidth p + 1) (stepSize p) 0 < fuel)%nat ->
  exists outcome,
    processImagePair applyHanningWindow p frame1 frame2 calibration fuel = Some outcome.
Proof.
  intros Hstep Hh Hw. unfold processImagePair.
  destruct (_ || _); [eauto|]. cbv zeta.
  edestruct (grid_total applyHanningWindow p) as [a ->]; [exact Hstep| | |eauto].
  - rewrite <- (iterations_shift _ _ 0 (windowHeight p / 2)) in Hh.
    replace (height frame1 - windowHeight p + 1 + windowHeight p / 2)
      with (height frame1 + windowHeight p / 2 + windowHeight p / 2
            - windowHeight p / 2 - windowHeight p + 1) in Hh by lia.
    exact Hh.
  - rewrite <- (iterations_shift _ _ 0 (windowWidth p / 2)) in Hw.
    replace (width frame1 - windowWidth p + 1 + windowWidth p / 2)
      with (width frame1 + windowWidth p / 2 + windowWidth p / 2
            - windowWidth p / 2 - windowWidth p + 1) in Hw by lia.
    exact Hw.
Qed.

(** X12.  With even window sizes, [processImagePair] throws on frames of
    different dimensions.  A result it returns is the filtering and statistics of four parallel
    arrays whose every entry comes from a window inside the unpadded frame,
    at a multiple of the step, with its centre in the region of interest,
    and holds the shift [phaseCorrelate] finds between the two weighted
    frame blocks there; the result keeps the arrays' length and counts it as
    [totalVectors].  With a positive step and fuel for the rows and the
    columns of the grid, the function returns or throws. *)
Theorem processImagePair_outcome applyHanningWindow p frame1 frame2 calibration fuel :
  0 <= windowWidth p -> 0 <= windowHeight p ->
  Z.even (windowWidth p) = true -> Z.even (windowHeight p) = true ->
  (width frame1 <> width frame2 \/ height frame1 <> height frame2 ->
   processImagePair applyHanningWindow p frame1 frame2 calibration fuel
   = Some (Thrown "Images must have the same dimensions"))
  /\
  (forall r,
     processImagePair applyHanningWindow p frame1 frame2 calibration fuel
     = Some (Returned r) ->
     width frame1 = width frame2 /\ height frame1 = height frame2 /\
     exists a,
       gridded applyHanningWindow p frame1 frame2 a /\
       r = Basic.processImagePair (filterParams p)
             (originsX a) (originsY a) (vectorsX a) (vectorsY a) calibration /\
       Basic.originsX r = originsX a /\
       length (Basic.vectorsX r) = length (originsX a) /\
       length (Basic.vectorsY r) = length (originsX a) /\
       Basic.totalVectors (Basic.statistics r) = length (originsX a))
  /\
  (0 < stepSize p ->
   (Scan.iterations (height frame1 - windowHeight p + 1) (stepSize p) 0 < fuel)%nat ->
   (Scan.iterations (width frame1 - windowWidth p + 1) (stepSize p) 0 < fuel)%nat ->
   exists outcome,
     processImagePair applyHanningWindow p frame1 frame2 calibration fuel
     = Some outcome).
Proof.
  intros HW HH _ _. split; [|split]; [| |apply processImagePair_total].
  - unfold processImagePair. intros Hdim.
    destruct (Z.eqb_spec (width frame1) (width frame2));
      destruct (Z.eqb_spec (height frame1) (height frame2)); cbn; auto.
    destruct Hdim; contradiction.
  - unfold processImagePair. intros r.
    destruct (Z.eqb_spec (width frame1) (width frame2)); [|discriminate].
    destruct (Z.eqb_spec (height frame1) (height frame2)); [|discriminate].
    cbn [negb orb]. cbv zeta.
    destruct (grid _ _ _ _ _ _ _ _ _ _ _) as [a|] eqn:Hgrid; [|discriminate].
    intros [= <-]. split; [assumption|]. split; [assumption|].
    apply grid_gridded in Hgrid; [|assumption..].
    exists a. split; [exact Hgrid|]. split; [reflexivity|].
    destruct Hgrid as (L1 & L2 & L3 & _).
    destruct (processImagePair_vectors (filterParams p)
                (originsX a) (originsY a) (vectorsX a) (vectorsY a) calibration)
      as [-> ->].
    destruct (localMedianFilter_length (filterParams p) (originsX a) (originsY a)
                (Spec.marks (filterParams p) (vectorsX a))
                (Spec.marks (filterParams p) (vectorsY a))) as [-> ->].
    rewrite !marks_length.
    repeat split; auto.
    + unfold Basic.processImagePair.
      now destruct (Basic.localMedianFilter _ _ _ _ _).
    + unfold Basic.processImagePair.
      destruct (Basic.localMedianFilter _ _ _ _ _). cbn. exact L2.
Qed.

Lemma processImagePair_outcome_witness :
  let applyHanningWindow := fun (patch : list float) (_ _ : Z) => patch in
  let p := PIV_PARAMS in
  let frame1 := mkFrame (Advanced.pixels Sample.tiny) 2 2 in
  let frame2 := mkFrame (Advanced.pixels Sample.tiny) 2 2 in
  let calibration := None in
  let fuel := 3%nat in
  (width frame1 <> width frame2 \/ height frame1 <> height frame2 ->
   processImagePair applyHanningWindow p frame1 frame2 calibration fuel
   = Some (Thrown "Images must have the same dimensions"))
  /\
  (forall r,
     processImagePair applyHanningWindow p frame1 frame2 calibration fuel
     = Some (Returned r) ->
     width frame1 = width frame2 /\ height frame1 = height frame2 /\
     exists a,
       gridded applyHanningWindow p frame1 frame2 a /\
       r = Basic.processImagePair (filterParams p)
             (originsX a) (originsY a) (vectorsX a) (vectorsY a) calibration /\
       Basic.originsX r = originsX a /\
       length (Basic.vectorsX r) = length (originsX a) /\
       length (Basic.vectorsY r) = length (originsX a) /\
       Basic.totalVectors (Basic.statistics r) = length (originsX a))
  /\
  (0 < stepSize p ->
   (Scan.iterations (height frame1 - windowHeight p + 1) (stepSize p) 0 < fuel)%nat ->
   (Scan.iterations (width frame1 - windowWidth p + 1) (stepSize p) 0 < fuel)%nat ->
   exists outcome,
     processImagePair applyHanningWindow p frame1 frame2 calibration fuel
     = Some outcome).
Proof.
  apply (processImagePair_outcome (fun (patch : list float) (_ _ : Z) => patch)
           PIV_PARAMS (mkFrame (Advanced.pixels Sample.tiny) 2 2)
           (mkFrame (Advanced.pixels Sample.tiny) 2 2) None 3%nat);
    vm_compute; first [reflexivity|discriminate].
Defined.

(** ** Frames without a window *)

(** X13.  With the parameters of the first server (windows of 48 x 128), a
    pair of frames of equal dimensions that is lower than 128 or narrower
    than 48 pixels has no window: [processImagePair] returns no vector,
    counts 0, and its statistics are not numbers: the means, deviations and
    the average velocity are NaN and the maximum velocity is -Infinity. *)
Theorem small_frame_statistics applyHanningWindow frame1 frame2 calibration fuel :
  width frame1 = width frame2 -> height frame1 = height frame2 ->
  height frame1 < 128 \/ width frame1 < 48 ->
  (Z.to_nat (height frame1) < fuel)%nat ->
  exists r,
    processImagePair applyHanningWindow PIV_PARAMS frame1 frame2 calibration fuel
    = Some (Returned r) /\
    Basic.vectorsX r = [] /\
    Basic.totalVectors (Basic.statistics r) = 0%nat /\
    Basic.meanX (Basic.statistics r) = nan /\
    Basic.meanY (Basic.statistics r) = nan /\
    Basic.stdX (Basic.statistics r) = nan /\
    Basic.stdY (Basic.statistics r) = nan /\
    Basic.maxVelocity (Basic.statistics r) = neg_infinity /\
    Basic.avgVelocity (Basic.statistics r) = nan.
Proof.
  intros Hw Hh Hsmall Hfuel.
  assert (Hgrid : forall f1 f2,
    grid applyHanningWindow PIV_PARAMS f1 f2
      (width frame1 + 24 + 24) (height frame1 + 64 + 64) 24 24 64 64 fuel
    = Some (mkArrays [] [] [] [])).
  { intros f1 f2. unfold grid. cbn [windowHeight windowWidth stepSize PIV_PARAMS].
    destruct fuel as [|fuel]; [lia|].
    destruct Hsmall as [Hs|Hs].
    - apply forLoop_skip. lia.
    - apply forLoop_idle; [|lia|lia].
      intros y st. apply forLoop_skip. lia. }
  unfold processImagePair.
  rewrite Hw, Hh, !Z.eqb_refl. cbn [negb orb]. cbv zeta.
  change (windowWidth PIV_PARAMS / 2) with 24.
  change (windowHeight PIV_PARAMS / 2) with 64.
  rewrite <- Hw, <- Hh, Hgrid.
  eexists. split; [reflexivity|].
  destruct calibration as [c|]; cbn [originsX originsY vectorsX vectorsY];
    repeat split; vm_compute; reflexivity.
Qed.

Lemma small_frame_statistics_witness :
  exists r,
    processImagePair (fun (patch : list float) (_ _ : Z) => patch) PIV_PARAMS
      (mkFrame (Advanced.pixels Sample.tiny) 2 2)
      (mkFrame (Advanced.pixels Sample.tiny) 2 2) None 3
    = Some (Returned r) /\
    Basic.vectorsX r = [] /\
    Basic.totalVectors (Basic.statistics r) = 0%nat /\
    Basic.meanX (Basic.statistics r) = nan /\
    Basic.meanY (Basic.statistics r) = nan /\
    Basic.stdX (Basic.statistics r) = nan /\
    Basic.stdY (Basic.statistics r) = nan /\
    Basic.maxVelocity (Basic.statistics r) = neg_infinity /\
    Basic.avgVelocity (Basic.statistics r) = nan.
Proof.
  apply (small_frame_statistics (fun (patch : list float) (_ _ : Z) => patch)
           (mkFrame (Advanced.pixels Sample.tiny) 2 2)
           (mkFrame (Advanced.pixels Sample.tiny) 2 2) None 3);
    vm_compute; first [reflexivity|lia|left; reflexivity].
Defined.

(** ** The result of [phaseCorrelate] *)

(** The two ways the search of the first server ends. *)
Lemma searchLoop_cases template search width height :
  Basic.searchLoop template search width height = Basic.mkBest 0 0 (-1)%float \/
  (Spec.inRange Basic.searchRange
     (Basic.bestX (Basic.searchLoop template search width height))
     (Basic.bestY (Basic.searchLoop template search width height)) /\
   ((-1) <? Basic.maxCorr (Basic.searchLoop template search width height))%float
   = true).
Proof.
  pose proof (pick_scanned (Scan.shiftScore template search width height)
                (0, 0) (-1)%float (Spec.scan Basic.searchRange)) as Hscan.
  rewrite <- searchLoop_scan in Hscan.
  revert Hscan. generalize (Basic.searchLoop template search width height) as best.
  generalize Basic.searchRange as r. intros r best Hscan.
  destruct Hscan as [[E _]|(l1 & l2 & El & _ & Hm0 & _)];
    unfold Scan.ofBest in *; cbn [fst snd] in *.
  - left. destruct best. cbn in E. congruence.
  - right. split; [|exact Hm0].
    apply in_scan. rewrite El. apply in_or_app. right. now left.
Qed.

Lemma Z2F_small_range k :
  - 16 <= k <= 16 ->
  (abs (Z2F k) <=? 16)%float = true /\ isNaN (Z2F k) = false.
Proof.
  intros Hk.
  assert (In k (range (-16) 33)) as Hin by (apply in_range; lia).
  revert Hin. generalize k. apply List.Forall_forall.
  vm_compute. repeat constructor.
Qed.

(** X14.  [phaseCorrelate] returns a shift of at most 16 pixels in each
    direction and a correlation of at least -1; none of the three numbers
    is NaN. *)
Theorem phaseCorrelate_bounds template search width height :
  let r := Basic.phaseCorrelate template search width height in
  (abs (Basic.x r) <=? 16)%float = true /\
  (abs (Basic.y r) <=? 16)%float = true /\
  ((-1) <=? Basic.correlation r)%float = true /\
  isNaN (Basic.x r) = false /\ isNaN (Basic.y r) = false /\
  isNaN (Basic.correlation r) = false.
Proof.
  cbv zeta. unfold Basic.phaseCorrelate.
  cbn [Basic.x Basic.y Basic.correlation].
  destruct (searchLoop_cases template search width height) as [E|[[Hx Hy] Hlt]].
  - rewrite E. vm_compute. auto 10.
  - revert Hx Hy Hlt.
    generalize (Basic.searchLoop template search width height) as best.
    intros best Hx Hy Hlt. change Basic.searchRange with 16 in Hx, Hy.
    destruct (Z2F_small_range _ Hx) as [Hax Hnx].
    assert (Hy' : - 16 <= - Basic.bestY best <= 16) by lia.
    destruct (Z2F_small_range _ Hy') as [Hay Hny].
    assert (Eopp : forall k, - 16 <= k <= 16 -> (- Z2F k)%float = Z2F (- k) \/ k = 0).
    { intros k Hk. destruct (Z.eq_dec k 0) as [->|Hne]; [now right|left].
      assert (In k (List.filter (fun k => negb (k =? 0)) (range (-16) 33))) as Hin.
      { apply filter_In. split; [apply in_range; lia|].
        now apply negb_true_iff, Z.eqb_neq. }
      revert Hin. generalize k. apply List.Forall_forall.
      vm_compute. repeat constructor. }
    destruct (Eopp _ Hy) as [-> | E0].
    + repeat split; auto.
      * rewrite leb_ltb_eqb, Hlt. reflexivity.
      * now destruct (ltb_not_nan _ _ Hlt).
    + rewrite E0. repeat split; auto; try (vm_compute; reflexivity).
      * rewrite leb_ltb_eqb, Hlt. reflexivity.
      * now destruct (ltb_not_nan _ _ Hlt).
Qed.

Lemma ltb_nan_r (x : float) : (x <? nan)%float = false.
Proof.
  rewrite FloatAxioms.ltb_spec. change (Prim2SF nan) with S754_nan.
  unfold SFltb, SFcompare. now destruct (Prim2SF x).
Qed.

Lemma fold_left_fixed {A B : Type} (f : A -> B -> A) (l : list B) (a : A) :
  (forall b, f a b = a) -> fold_left f l a = a.
Proof. intros H. induction l as [|b l IH]; [reflexivity|]. cbn. now rewrite H. Qed.

Lemma scoreAt_empty_patch template search width height dx dy :
  width <= 0 \/ height <= 0 ->
  Basic.scoreAt template search width height dx dy = nan.
Proof.
  intros Hdim. unfold Basic.scoreAt.
  match goal with |- (let '(c, n) := ?e in _) = _ =>
    assert (E : e = (0%float, 0%float)) end.
  { destruct Hdim as [Hw|Hh].
    - replace (Z.to_nat width) with 0%nat by lia. now apply fold_left_fixed.
    - now replace (Z.to_nat height) with 0%nat by lia. }
  rewrite E. reflexivity.
Qed.

(** X15.  On a patch without columns or without rows no offset has a score
    (each is 0/0), and [phaseCorrelate] returns its initial state: the
    shift (0, -0) with correlation -1. *)
Theorem phaseCorrelate_empty_patch template search width height :
  width <= 0 \/ height <= 0 ->
  Basic.phaseCorrelate template search width height
  = Basic.mkShift 0 (-0) (-1).
Proof.
  intros Hdim. unfold Basic.phaseCorrelate.
  assert (E : Basic.searchLoop template search width height
              = Basic.mkBest 0 0 (-1)%float).
  { unfold Basic.searchLoop. generalize (symRange Basic.searchRange). intros l.
    apply fold_left_fixed. intros dy. apply fold_left_fixed. intros dx.
    unfold Basic.improve. rewrite scoreAt_empty_patch by assumption.
    now rewrite ltb_nan_r. }
  rewrite E. reflexivity.
Qed.

Lemma phaseCorrelate_empty_patch_witness :
  Basic.phaseCorrelate Sample.spot Sample.spotBelow 0 3 = Basic.mkShift 0 (-0) (-1).
Proof. apply (phaseCorrelate_empty_patch Sample.spot Sample.spotBelow 0 3). lia. Defined.

(** ** The median of the neighbours *)

Lemma insertSorted_perm x l : insertSorted x l ≡ₚ x :: l.
Proof.
  induction l as [|y l IH]; [reflexivity|]. cbn.
  destruct (_ <=? _)%float; [reflexivity|]. rewrite IH. apply Permutation_swap.
Qed.

Lemma sort_perm l : sort l ≡ₚ l.
Proof.
  induction l as [|x l IH]; [reflexivity|].
  rewrite sort_cons, insertSorted_perm. now constructor.
Qed.

(** The median of a non-empty list is one of its elements. *)
Lemma medianOf_in (l : list float) : l <> [] -> In (Basic.medianOf l) l.
Proof.
  intros Hne. unfold Basic.medianOf, get.
  assert (Hlen : (length (sort l) / 2 < length (sort l))%nat).
  { apply Nat.div_lt; [|lia]. rewrite (Permutation_length (sort_perm l)).
    destruct l; [contradiction|cbn; lia]. }
  destruct (lookup_lt_is_Some_2 _ _ Hlen) as [m Hm]. rewrite Hm. cbn.
  apply list_elem_of_In. rewrite <- (sort_perm l).
  eapply list_elem_of_lookup_2; eauto.
Qed.

Lemma neighbors_valid p oX oY fX fY i j :
  In j (Basic.neighbors p oX oY fX fY i) ->
  isNaN (get fX j) = false /\ isNaN (get fY j) = false.
Proof.
  unfold Basic.neighbors. rewrite filter_In. intros [_ H].
  apply andb_prop in H as [[_ HX]%andb_prop HY].
  now apply negb_true_iff in HX, HY.
Qed.

Lemma medianOf_neighbors_valid (f : nat -> float) (nb : list nat) :
  nb <> [] -> (forall j, In j nb -> isNaN (f j) = false) ->
  isNaN (Basic.medianOf (map f nb)) = false.
Proof.
  intros Hne Hall.
  assert (Hin : In (Basic.medianOf (map f nb)) (map f nb)).
  { apply medianOf_in. destruct nb; [contradiction|discriminate]. }
  apply in_map_iff in Hin as (j & <- & Hj). now apply Hall.
Qed.

(** X16.  After the interpolation loop a vector still has a NaN component
    only if it was suspect and, when its turn came, had no neighbour with
    two valid components: the loop fills every suspect vector it can and
    never turns a valid component into NaN. *)
Theorem interpolation_fills p oX oY vX vY calibration i :
  length vX = length oX -> length vY = length oX -> (i < length oX)%nat ->
  let r := Basic.processImagePair p oX oY vX vY calibration in
  isNaN (get (Basic.vectorsX r) i) || isNaN (get (Basic.vectorsY r) i) = true ->
  Spec.suspect p vX vY i = true /\
  Basic.neighbors p oX oY
    (Spec.seenAt (Basic.vectorsX r) (Spec.marks p vX) i)
    (Spec.seenAt (Basic.vectorsY r) (Spec.marks p vY) i) i = [].
Proof.
  intros HX HY Hi. cbv zeta.
  destruct (processImagePair_vectors p oX oY vX vY calibration) as [-> ->].
  pose proof (localMedianFilter_entry p oX oY (Spec.marks p vX) (Spec.marks p vY) i)
    as H.
  rewrite !marks_length in H. specialize (H HX HY Hi). cbv zeta in H.
  unfold Spec.suspect.
  destruct (isNaN (get (Spec.marks p vX) i) || isNaN (get (Spec.marks p vY) i)) eqn:Es.
  - destruct (Basic.neighbors _ _ _ _ _ _) as [|j nb] eqn:En; [auto|].
    destruct H as [-> ->]. intros Hnan. exfalso.
    rewrite !medianOf_neighbors_valid in Hnan; [discriminate|discriminate| |discriminate|].
    + intros k Hk. rewrite <- En in Hk. now apply neighbors_valid in Hk.
    + intros k Hk. rewrite <- En in Hk. now apply neighbors_valid in Hk.
  - destruct H as [-> ->]. intros Hnan. congruence.
Qed.

Lemma interpolation_fills_witness :
  Spec.suspect Basic.PIV_PARAMS Sample.uniformX Sample.uniformY 0 = true /\
  Basic.neighbors Basic.PIV_PARAMS Sample.centresX Sample.centresY
    (Spec.seenAt
       (Basic.vectorsX (Basic.processImagePair Basic.PIV_PARAMS
          Sample.centresX Sample.centresY Sample.uniformX Sample.uniformY None))
       (Spec.marks Basic.PIV_PARAMS Sample.uniformX) 0)
    (Spec.seenAt
       (Basic.vectorsY (Basic.processImagePair Basic.PIV_PARAMS
          Sample.centresX Sample.centresY Sample.uniformX Sample.uniformY None))
       (Spec.marks Basic.PIV_PARAMS Sample.uniformY) 0) 0 = [].
Proof.
  apply (interpolation_fills Basic.PIV_PARAMS Sample.centresX Sample.centresY
           Sample.uniformX Sample.uniformY None 0);
    vm_compute; first [reflexivity|lia].
Defined.

(** ** The batch handler *)

Section Batch.
Variable applyHanningWindow : list float -> Z -> Z -> list float.
Variable p : Params.
Variable calibration : option float.
Variable fuel : nat.
Variable files : list Frame.

Lemma batchLoop_spec steps i acc res :
  batchLoop applyHanningWindow p calibration fuel files i steps acc = Some res ->
  exists rs,
    res = acc ++ rs /\
    length rs = ((length files - i) / 2)%nat /\
    forall k, (k < length rs)%nat ->
      batchEntry applyHanningWindow p calibration fuel files (i + 2 * k)
      = rs !! k.
Proof.
  revert i acc. induction steps as [|steps IH]; intros i acc; [discriminate|].
  cbn [batchLoop]. destruct (Nat.ltb_spec i (length files - 1)) as [Hi|Hi].
  - destruct (batchEntry _ _ _ _ _ i) as [entry|] eqn:E; [|discriminate].
    intros Hrun. apply IH in Hrun as (rs & -> & Hlen & Hall).
    exists (entry :: rs). rewrite <- app_assoc. cbn [app length].
    split; [reflexivity|]. split.
    + rewrite Hlen.
      replace (length files - i)%nat with (length files - (i + 2) + 1 * 2)%nat by lia.
      rewrite Nat.div_add by lia. lia.
    + intros [|k] Hk; cbn [lookup list_lookup].
      * now rewrite Nat.mul_0_r, Nat.add_0_r.
      * rewrite <- Hall by lia. f_equal. lia.
  - intros [= <-]. exists []. rewrite app_nil_r. split; [reflexivity|].
    split; [|intros k Hk; cbn [length] in Hk; lia].
    cbn [length]. symmetry. apply Nat.div_small. lia.
Qed.

Lemma batchLoop_total steps i acc :
  (forall k, (k < length files - 1)%nat ->
     exists entry,
       batchEntry applyHanningWindow p calibration fuel files k = Some entry) ->
  (length files - i < steps)%nat ->
  exists res,
    batchLoop applyHanningWindow p calibration fuel files i steps acc = Some res.
Proof.
  intros Hentry. revert i acc.
  induction steps as [|steps IH]; intros i acc Hsteps; [lia|].
  cbn [batchLoop]. destruct (Nat.ltb_spec i (length files - 1)) as [Hi|Hi]; [|eauto].
  destruct (Hentry i Hi) as [entry ->]. apply IH. lia.
Qed.

End Batch.

(** X17.  With even window sizes: [/batch-process] refuses fewer than two
    files.  An answer for
    [n] files holds [floor(n / 2)] entries, entry [k] being what
    [processImagePair] returns or throws for the files [2k] and [2k + 1]: a
    pair that throws leaves an error entry without stopping the batch, and
    a last file without partner is ignored.  With a positive step and fuel
    for the grid of every file, the handler answers. *)
Theorem batchProcess_pairs applyHanningWindow p calibration fuel files :
  Z.even (windowWidth p) = true -> Z.even (windowHeight p) = true ->
  ((length files < 2)%nat ->
   batchProcess applyHanningWindow p calibration fuel files
   = Some (AdvancedRoutes.BadRequest "At least 2 images are required"))
  /\
  (forall results,
     batchProcess applyHanningWindow p calibration fuel files
     = Some (AdvancedRoutes.Ok results) ->
     (2 <= length files)%nat /\
     length results = (length files / 2)%nat /\
     forall k, (k < length files / 2)%nat ->
       exists frame1 frame2,
         files !! (2 * k)%nat = Some frame1 /\
         files !! S (2 * k) = Some frame2 /\
         match processImagePair applyHanningWindow p frame1 frame2 calibration fuel with
         | Some (Returned r) => results !! k = Some (PairResult r)
         | Some (Thrown message) => results !! k = Some (PairError message)
         | None => False
         end)
  /\
  (0 < stepSize p ->
   (forall frame, In frame files ->
      (Scan.iterations (height frame - windowHeight p + 1) (stepSize p) 0 < fuel)%nat /\
      (Scan.iterations (width frame - windowWidth p + 1) (stepSize p) 0 < fuel)%nat) ->
   exists response,
     batchProcess applyHanningWindow p calibration fuel files = Some response).
Proof.
  intros _ _. unfold batchProcess. split; [|split].
  - intros Hn. apply Nat.ltb_lt in Hn. now rewrite Hn.
  - intros results. destruct (Nat.ltb_spec (length files) 2) as [Hn|Hn]; [discriminate|].
    destruct (batchLoop _ _ _ _ _ _ _ _) as [res|] eqn:E; [|discriminate].
    intros [= <-]. apply batchLoop_spec in E as (rs & -> & Hlen & Hall).
    rewrite Nat.sub_0_r in Hlen. cbn [app].
    split; [assumption|]. split; [assumption|].
    intros k Hk. rewrite <- Hlen in Hk. specialize (Hall k Hk). cbn [Nat.add] in Hall.
    destruct (lookup_lt_is_Some_2 rs k Hk) as [entry Hentry].
    rewrite Hentry in Hall. unfold batchEntry in Hall.
    destruct (files !! (2 * k)%nat) as [frame1|]; [|discriminate].
    destruct (files !! S (2 * k)) as [frame2|]; [|discriminate].
    exists frame1, frame2. split; [reflexivity|]. split; [reflexivity|].
    destruct (processImagePair _ _ _ _ _ _) as [[r|message]|];
      [congruence|congruence|discriminate].
  - intros Hstep Hfuel. destruct (length files <? 2)%nat; [eauto|].
    edestruct (batchLoop_total applyHanningWindow p calibration fuel files
                 (S (length files)) 0%nat []) as [res ->]; [|lia|eauto].
    intros k Hk. unfold batchEntry.
    destruct (lookup_lt_is_Some_2 files k) as [frame1 E1]; [lia|].
    destruct (lookup_lt_is_Some_2 files (S k)) as [frame2 E2]; [lia|].
    rewrite E1, E2.
    destruct (Hfuel frame1) as [Hh Hw].
    { apply list_elem_of_In. eapply list_elem_of_lookup_2; eauto. }
    destruct (processImagePair_total applyHanningWindow p frame1 frame2 calibration fuel
                Hstep Hh Hw) as [[r|message] ->]; eauto.
Qed.

Lemma batchProcess_pairs_witness :
  let applyHanningWindow := fun (patch : list float) (_ _ : Z) => patch in
  let p := PIV_PARAMS in
  let calibration := None in
  let fuel := 3%nat in
  let files := [mkFrame (Advanced.pixels Sample.tiny) 2 2;
                mkFrame (Advanced.pixels Sample.tiny) 2 2;
                mkFrame (Advanced.pixels Sample.tiny) 2 2] in
  ((length files < 2)%nat ->
   batchProcess applyHanningWindow p calibration fuel files
   = Some (AdvancedRoutes.BadRequest "At least 2 images are required"))
  /\
  (forall results,
     batchProcess applyHanningWindow p calibration fuel files
     = Some (AdvancedRoutes.Ok results) ->
     (2 <= length files)%nat /\
     length results = (length files / 2)%nat /\
     forall k, (k < length files / 2)%nat ->
       exists frame1 frame2,
         files !! (2 * k)%nat = Some frame1 /\
         files !! S (2 * k) = Some frame2 /\
         match processImagePair applyHanningWindow p frame1 frame2 calibration fuel with
         | Some (Returned r) => results !! k = Some (PairResult r)
         | Some (Thrown message) => results !! k = Some (PairError message)
         | None => False
         end)
  /\
  (0 < stepSize p ->
   (forall frame, In frame files ->
      (Scan.iterations (height frame - windowHeight p + 1) (stepSize p) 0 < fuel)%nat /\
      (Scan.iterations (width frame - windowWidth p + 1) (stepSize p) 0 < fuel)%nat) ->
   exists response,
     batchProcess applyHanningWindow p calibration fuel files = Some response).
Proof.
  apply (batchProcess_pairs (fun (patch : list float) (_ _ : Z) => patch)
           PIV_PARAMS None 3%nat
           [mkFrame (Advanced.pixels Sample.tiny) 2 2;
            mkFrame (Advanced.pixels Sample.tiny) 2 2;
            mkFrame (Advanced.pixels Sample.tiny) 2 2]);
    reflexivity.
Defined.
